(** * Executor registry and request correlator of wire-agent

    Shallow embedding of [ExecutorManager] (server/src/executor/manager.ts).

    - A JS [Map] is an association list kept in insertion order: [set] on a
      present key replaces the value in place, on an absent key appends,
      [delete] drops the key; iteration follows the list.
    - Connection objects ([ExecutorConnection]) live in a heap indexed by a
      reference: the registry maps an executorId to a reference, and every
      timeout closure created by [execute] captures the reference of the
      object it was created for, as the TypeScript closure captures [conn].
    - A promise is a number; its [resolve]/[reject] callbacks are recorded
      in [calls], one entry per invocation, tagged with the code path that
      made it.  A timeout handle is the same number as its promise.
    - [traffic] lists the messages handed to [ws.send], [closes] the
      transport handles on which [ws.close()] was called.
    - [Date.now()] and [Math.random()] are inputs of the operations. *)

From Stdlib Require Import String Ascii ZArith NArith List Bool Lia Sorted.
From Stdlib Require Import DecimalString DecimalZ.
Import ListNotations.

Local Open Scope string_scope.
Local Open Scope list_scope.

(** ** JS [Map] with string keys, insertion ordered *)
Section JsMap.
Context {V : Type}.

Fixpoint map_get (m : list (string * V)) (k : string) : option V :=
  match m with
  | [] => None
  | (k', v) :: t => if String.eqb k k' then Some v else map_get t k
  end.

Fixpoint map_set (m : list (string * V)) (k : string) (v : V) : list (string * V) :=
  match m with
  | [] => [(k, v)]
  | (k', v') :: t =>
      if String.eqb k k' then (k', v) :: t else (k', v') :: map_set t k v
  end.

Definition map_delete (m : list (string * V)) (k : string) : list (string * V) :=
  filter (fun kv => negb (String.eqb k (fst kv))) m.

Definition map_keys (m : list (string * V)) : list string := map fst m.

End JsMap.

(** ** Protocol types (protocol package, ExecutorRegister / ExecuteResult) *)

Record ExecutorRegister := mkRegister {
  executorId : string;
  platform : string;
  capabilities : list string;
  meta : list (string * string)
}.

(** [data] is opaque ([unknown]) for the manager. *)
Record ExecuteResult := mkResult {
  res_id : string;
  success : bool;
  data : option string;
  error : option string
}.

(** The value stored in [pendingRequests]: the promise whose [resolve] and
    [reject] it holds, and its timeout handle. *)
Record PendingRequest := mkPending {
  pending_promise : nat;
  timeout : nat
}.

Record ExecutorConnection := mkConn {
  ws : nat;
  info : ExecutorRegister;
  connectedAt : Z;
  lastActiveAt : Z;
  pendingRequests : list (string * PendingRequest)
}.

(** The callback scheduled by [setTimeout] in [execute]: it captures the
    connection object, the request id and the promise. *)
Record TimeoutTask := mkTask {
  task_conn : nat;
  task_id : string;
  task_promise : nat
}.

(** Messages sent to an executor ([ExecuteCommand], [ControlCommand]). *)
Inductive Outbound :=
| OExecute (id action : string) (params : list (string * string))
| OControlPing.

(** Which code path invoked a promise callback. *)
Inductive Arm := ArmReply | ArmTimeout | ArmLoss | ArmSendFail.

Inductive Settlement :=
| Resolve (r : ExecuteResult)
| Reject (message : string).

Record Manager := mkManager {
  executors : list (string * nat);
  defaultExecutorId : option string;
  heap : list ExecutorConnection;
  timers : list (nat * TimeoutTask);
  next_handle : nat;
  calls : list (nat * Arm * Settlement);
  traffic : list (nat * Outbound);
  closes : list nat
}.

Definition emptyManager : Manager := mkManager [] None [] [] 0 [] [] [].

Definition requestTimeout : Z := 30000.
Definition HEARTBEAT_TIMEOUT : Z := 45000.

(** Template-literal rendering of an integer number. *)
Definition string_of_Z (z : Z) : string := NilEmpty.string_of_int (Z.to_int z).

(** ** Field updates *)
Definition set_executors (m : Manager) e :=
  mkManager e (defaultExecutorId m) (heap m) (timers m) (next_handle m) (calls m) (traffic m) (closes m).
Definition set_default (m : Manager) d :=
  mkManager (executors m) d (heap m) (timers m) (next_handle m) (calls m) (traffic m) (closes m).
Definition set_heap (m : Manager) h :=
  mkManager (executors m) (defaultExecutorId m) h (timers m) (next_handle m) (calls m) (traffic m) (closes m).
Definition set_timers (m : Manager) t :=
  mkManager (executors m) (defaultExecutorId m) (heap m) t (next_handle m) (calls m) (traffic m) (closes m).
Definition set_next (m : Manager) n :=
  mkManager (executors m) (defaultExecutorId m) (heap m) (timers m) n (calls m) (traffic m) (closes m).
Definition set_calls (m : Manager) c :=
  mkManager (executors m) (defaultExecutorId m) (heap m) (timers m) (next_handle m) c (traffic m) (closes m).
Definition set_traffic (m : Manager) t :=
  mkManager (executors m) (defaultExecutorId m) (heap m) (timers m) (next_handle m) (calls m) t (closes m).
Definition set_closes (m : Manager) c :=
  mkManager (executors m) (defaultExecutorId m) (heap m) (timers m) (next_handle m) (calls m) (traffic m) c.

Definition conn_at (m : Manager) (r : nat) : option ExecutorConnection := nth_error (heap m) r.

Fixpoint list_update {A} (l : list A) (n : nat) (f : A -> A) : list A :=
  match l, n with
  | [], _ => []
  | x :: t, 0 => f x :: t
  | x :: t, S n' => x :: list_update t n' f
  end.

Definition update_conn (m : Manager) (r : nat) (f : ExecutorConnection -> ExecutorConnection) :=
  set_heap m (list_update (heap m) r f).

Definition with_pending (c : ExecutorConnection) p :=
  mkConn (ws c) (info c) (connectedAt c) (lastActiveAt c) p.
Definition with_lastActive (c : ExecutorConnection) t :=
  mkConn (ws c) (info c) (connectedAt c) t (pendingRequests c).

(** [clearTimeout(h)]: the callback with handle [h] will not run. *)
Definition clearTimeout (m : Manager) (h : nat) : Manager :=
  set_timers m (filter (fun t => negb (Nat.eqb h (fst t))) (timers m)).

Definition invoke (m : Manager) (p : nat) (a : Arm) (s : Settlement) : Manager :=
  set_calls m (calls m ++ [(p, a, s)]).

Definition send (m : Manager) (w : nat) (o : Outbound) : Manager :=
  set_traffic m (traffic m ++ [(w, o)]).

(** ** Registry operations *)

(** [this.executors.get(id)] followed by the connection object. *)
Definition lookup_exec (m : Manager) (id : string) : option (nat * ExecutorConnection) :=
  match map_get (executors m) id with
  | Some r => match conn_at m r with Some c => Some (r, c) | None => None end
  | None => None
  end.

(** JS truthiness of [string | null]. *)
Definition truthy (s : option string) : bool :=
  match s with Some x => negb (String.eqb x "") | None => false end.

(** [register(ws, info)]: lines 78-104. *)
Definition register (w : nat) (i : ExecutorRegister) (now : Z) (m : Manager) : Manager :=
  let m1 := match lookup_exec m (executorId i) with
            | Some (_, existing) => set_closes m (closes m ++ [ws existing])
            | None => m
            end in
  let r := length (heap m1) in
  let m2 := set_heap m1 (heap m1 ++ [mkConn w i now now []]) in
  let m3 := set_executors m2 (map_set (executors m2) (executorId i) r) in
  if negb (truthy (defaultExecutorId m3)) then set_default m3 (Some (executorId i)) else m3.

(** The loop of [unregister] over [conn.pendingRequests]. *)
Definition reject_all (ps : list (string * PendingRequest)) (m : Manager) : Manager :=
  fold_left (fun m kv =>
               invoke (clearTimeout m (timeout (snd kv))) (pending_promise (snd kv))
                      ArmLoss (Reject "Executor disconnected"))
            ps m.

(** [unregister(executorId)]: lines 106-128. *)
Definition unregister (id : string) (m : Manager) : Manager :=
  match lookup_exec m id with
  | None => m
  | Some (_, conn) =>
      let m1 := reject_all (pendingRequests conn) m in
      let m2 := set_executors m1 (map_delete (executors m1) id) in
      match defaultExecutorId m2 with
      | Some d => if String.eqb d id
                  then set_default m2 (hd_error (map_keys (executors m2)))
                  else m2
      | None => m2
      end
  end.

(** The loop of [unregisterByWs]: the first key whose connection has this
    transport handle. *)
Fixpoint find_by_ws (h : list ExecutorConnection) (w : nat) (l : list (string * nat)) : option string :=
  match l with
  | [] => None
  | (id, r) :: t =>
      match nth_error h r with
      | Some c => if Nat.eqb (ws c) w then Some id else find_by_ws h w t
      | None => find_by_ws h w t
      end
  end.

(** [unregisterByWs(ws)]: lines 130-137. *)
Definition unregisterByWs (w : nat) (m : Manager) : Manager :=
  match find_by_ws (heap m) w (executors m) with
  | Some id => unregister id m
  | None => m
  end.

(** [getExecutor(executorId?)]: lines 139-143. *)
Definition getExecutor (target : option string) (m : Manager) : option (nat * ExecutorConnection) :=
  let id := if truthy target then target else defaultExecutorId m in
  match id with
  | Some s => if truthy id then lookup_exec m s else None
  | None => None
  end.

(** [setDefault(executorId)]: lines 145-151. *)
Definition setDefault (id : string) (m : Manager) : bool * Manager :=
  match map_get (executors m) id with
  | Some _ => (true, set_default m (Some id))
  | None => (false, m)
  end.

(** ** Request correlator *)

(** [`req_${Date.now()}_${Math.random().toString(36).slice(2, 8)}`], the
    random suffix being an input. *)
Definition request_id (now : Z) (suffix : string) : string :=
  ("req_" ++ string_of_Z now ++ "_" ++ suffix)%string.

Definition timeout_result (id : string) : ExecuteResult :=
  mkResult id false None (Some ("Request timeout after " ++ string_of_Z requestTimeout ++ "ms")%string).

Definition failure (id e : string) : ExecuteResult := mkResult id false None (Some e).

(** What the async function [execute] returns: a value, or the promise
    built at line 197. *)
Inductive ExecReturn :=
| Returned (r : ExecuteResult)
| Awaiting (p : nat).

(** [execute(action, params, executorId?)]: lines 168-226.  [now] is the
    [Date.now()] of the request id (line 187).  [send_error] is [Some msg]
    when [JSON.stringify] or [ws.send] throws; otherwise [sent_at] is the
    second [Date.now()], read after the send (line 213). *)
Definition execute (action : string) (params : list (string * string)) (target : option string)
    (now : Z) (suffix : string) (send_error : option string) (sent_at : Z) (m : Manager)
    : ExecReturn * Manager :=
  match getExecutor target m with
  | None =>
      let err := if truthy target
                 then match target with
                      | Some s => ("Executor not found: " ++ s)%string
                      | None => "No executor connected"%string
                      end
                 else "No executor connected"%string in
      (Returned (failure "" err), m)
  | Some (r, conn) =>
      let id := request_id now suffix in
      let p := next_handle m in
      let m1 := set_next m (S p) in
      let m2 := set_timers m1 (timers m1 ++ [(p, mkTask r id p)]) in
      let m3 := update_conn m2 r (fun c => with_pending c (map_set (pendingRequests c) id (mkPending p p))) in
      match send_error with
      | None =>
          let m4 := send m3 (ws conn) (OExecute id action params) in
          (Awaiting p, update_conn m4 r (fun c => with_lastActive c sent_at))
      | Some e =>
          let m4 := update_conn m3 r (fun c => with_pending c (map_delete (pendingRequests c) id)) in
          let m5 := clearTimeout m4 p in
          (Awaiting p, invoke m5 p ArmSendFail (Resolve (failure id ("Failed to send command: " ++ e)%string)))
      end
  end.

(** The loop of [handleResult] over the registered connections. *)
Fixpoint find_pending (h : list ExecutorConnection) (l : list (string * nat)) (k : string)
    : option (nat * PendingRequest) :=
  match l with
  | [] => None
  | (_, r) :: t =>
      match nth_error h r with
      | Some c => match map_get (pendingRequests c) k with
                  | Some p => Some (r, p)
                  | None => find_pending h t k
                  end
      | None => find_pending h t k
      end
  end.

(** [handleResult(result)]: lines 228-241. *)
Definition handleResult (res : ExecuteResult) (m : Manager) : Manager :=
  match find_pending (heap m) (executors m) (res_id res) with
  | Some (r, p) =>
      let m1 := clearTimeout m (timeout p) in
      let m2 := update_conn m1 r (fun c => with_pending c (map_delete (pendingRequests c) (res_id res))) in
      invoke m2 (pending_promise p) ArmReply (Resolve res)
  | None => m
  end.

Fixpoint find_timer (l : list (nat * TimeoutTask)) (h : nat) : option TimeoutTask :=
  match l with
  | [] => None
  | (h', t) :: l' => if Nat.eqb h h' then Some t else find_timer l' h
  end.

(** The timer with handle [h] fires: the callback of lines 198-207. *)
Definition fire_timer (h : nat) (m : Manager) : Manager :=
  match find_timer (timers m) h with
  | Some t =>
      let m1 := clearTimeout m h in
      let m2 := update_conn m1 (task_conn t)
                  (fun c => with_pending c (map_delete (pendingRequests c) (task_id t))) in
      invoke m2 (task_promise t) ArmTimeout (Resolve (timeout_result (task_id t)))
  | None => m
  end.

(** ** Heartbeat and other messages *)

(** [sendPing(conn)]: lines 58-68 (a throwing send is caught and logged). *)
Definition sendPing (c : ExecutorConnection) (m : Manager) : Manager :=
  send m (ws c) OControlPing.

(** [checkConnections()]: lines 46-56. *)
Definition checkConnections (now : Z) (m : Manager) : Manager :=
  fold_left (fun acc kv =>
               match nth_error (heap m) (snd kv) with
               | Some c => if Z.ltb HEARTBEAT_TIMEOUT (now - lastActiveAt c)
                           then sendPing c acc else acc
               | None => acc
               end)
            (executors m) m.

(** ** Plain objects

    A plain object is the list of its properties in the order its keys are
    enumerated.  That order is OrdinaryOwnPropertyKeys: first the keys that
    are array indices (canonical decimal strings of 0 .. 2^32 - 2), in
    ascending numeric order, then the other keys in the order they were
    created. *)

Definition digit_value (c : ascii) : option N :=
  let n := N_of_ascii c in
  if andb (N.leb 48 n) (N.leb n 57) then Some (n - 48)%N else None.

Fixpoint parse_decimal (s : string) (acc : N) : option N :=
  match s with
  | EmptyString => Some acc
  | String c t => match digit_value c with
                  | Some d => parse_decimal t (acc * 10 + d)%N
                  | None => None
                  end
  end.

(** [ToString(ToUint32(k)) === k] and [ToUint32(k) <> 2^32 - 1]: digits
    only, no leading zero, below 2^32 - 1. *)
Definition array_index (k : string) : option N :=
  match k with
  | EmptyString => None
  | String c t =>
      if andb (Ascii.eqb c "0") (negb (String.eqb t "")) then None
      else match parse_decimal k 0 with
           | Some n => if N.ltb n 4294967295 then Some n else None
           | None => None
           end
  end.

Definition is_index (k : string) : bool :=
  match array_index k with Some _ => true | None => false end.

Definition index_value (k : string) : N :=
  match array_index k with Some n => n | None => 0%N end.

(** Insertion before the first property with an index not below. *)
Fixpoint insert_index (x : string * string) (l : list (string * string)) : list (string * string) :=
  match l with
  | [] => [x]
  | y :: t => if N.ltb (index_value (fst y)) (index_value (fst x)) then y :: insert_index x t else x :: l
  end.

(** The enumeration order of an object whose properties were created in
    the order of [l]. *)
Definition own_keys_order (l : list (string * string)) : list (string * string) :=
  fold_right insert_index [] (filter (fun kv => is_index (fst kv)) l) ++
  filter (fun kv => negb (is_index (fst kv))) l.

(** Object spread [{ ...old, ...new }]: a fresh object gets the properties
    of [old], then those of [new], in their enumeration order; a key
    already there keeps its place and takes the new value. *)
Definition merge_meta (old new : list (string * string)) : list (string * string) :=
  own_keys_order (fold_left (fun acc kv => map_set acc (fst kv) (snd kv)) new old).

Definition with_meta (c : ExecutorConnection) mt :=
  mkConn (ws c) (mkRegister (executorId (info c)) (platform (info c)) (capabilities (info c)) mt)
         (connectedAt c) (lastActiveAt c) (pendingRequests c).

(** [updateState(executorId, meta)]: lines 243-250. *)
Definition updateState (id : string) (mt : list (string * string)) (now : Z) (m : Manager) : Manager :=
  match lookup_exec m id with
  | Some (r, _) =>
      update_conn m r (fun c => with_lastActive (with_meta c (merge_meta (meta (info c)) mt)) now)
  | None => m
  end.

Inductive ClientMessage :=
| MRegister (i : ExecutorRegister)
| MResult (r : ExecuteResult)
| MState (id : string) (mt : list (string * string))
| MPong (id : string).

(** [handleMessage(ws, message)]: lines 252-271. *)
Definition handleMessage (w : nat) (msg : ClientMessage) (now : Z) (m : Manager) : Manager :=
  match msg with
  | MRegister i => register w i now m
  | MResult r => handleResult r m
  | MState id mt => updateState id mt now m
  | MPong id =>
      match lookup_exec m id with
      | Some (r, _) => update_conn m r (fun c => with_lastActive c now)
      | None => m
      end
  end.

(** ** Event loop *)

(** Everything that runs on the single event loop: transport callbacks of
    ws/server.ts ([message], [close]/[error]), tool calls, timers and the
    heartbeat interval. *)
Inductive Event :=
| EMessage (w : nat) (msg : ClientMessage) (now : Z)
| EClose (w : nat)
| EUnregister (id : string)
| ESetDefault (id : string)
| EExecute (action : string) (params : list (string * string)) (target : option string)
           (now : Z) (suffix : string) (send_error : option string) (sent_at : Z)
| ETimer (h : nat)
| ESweep (now : Z).

Definition step (e : Event) (m : Manager) : Manager :=
  match e with
  | EMessage w msg now => handleMessage w msg now m
  | EClose w => unregisterByWs w m
  | EUnregister id => unregister id m
  | ESetDefault id => snd (setDefault id m)
  | EExecute a ps t now sfx err sat => snd (execute a ps t now sfx err sat m)
  | ETimer h => fire_timer h m
  | ESweep now => checkConnections now m
  end.

Definition run (es : list Event) (m : Manager) : Manager := fold_left (fun m e => step e m) es m.

Inductive reachable : Manager -> Prop :=
| reach_init : reachable emptyManager
| reach_step e m : reachable m -> reachable (step e m).

(** ** Read accessors *)

(** [getDefault()]: lines 153-155. *)
Definition getDefault (m : Manager) : option string := defaultExecutorId m.

(** [ExecutorInfo] (protocol package): the objects returned by [list()]. *)
Record ExecutorInfo := mkInfo {
  info_executorId : string;
  info_platform : string;
  info_capabilities : list string;
  info_meta : list (string * string);
  info_connectedAt : Z;
  info_lastActiveAt : Z
}.

Definition to_info (c : ExecutorConnection) : ExecutorInfo :=
  mkInfo (executorId (info c)) (platform (info c)) (capabilities (info c)) (meta (info c))
         (connectedAt c) (lastActiveAt c).

(** [list()]: lines 157-166.  [Array.from(this.executors.values())]
    follows insertion order. *)
Definition list_executors (m : Manager) : list ExecutorInfo :=
  flat_map (fun kv => match conn_at m (snd kv) with
                      | Some c => [to_info c]
                      | None => []
                      end) (executors m).

(** The [executor_use] case of [handleToolCall] (mcp/server.ts, lines
    717-730): the text of the tool's answer and the manager after it. *)
Definition executor_use (executorId : string) (m : Manager) : string * Manager :=
  let (success, m') := setDefault executorId m in
  ((if success then "Default executor set to: " ++ executorId
    else "Executor not found: " ++ executorId)%string, m').

(** ** Heartbeat interval (lines 28-44 and 70-76)

    [hb_active] lists the handles of the [setInterval] timers that have
    not been cleared; [hb_next_handle] is the next handle Node returns. *)
Record Heartbeat := mkHeartbeat {
  heartbeatInterval : option nat;
  hb_next_handle : nat;
  hb_active : list nat
}.

(** [startHeartbeat()]: lines 36-44. *)
Definition startHeartbeat (h : Heartbeat) : Heartbeat :=
  match heartbeatInterval h with
  | Some _ => h
  | None => mkHeartbeat (Some (hb_next_handle h)) (S (hb_next_handle h))
                        (hb_active h ++ [hb_next_handle h])
  end.

(** [stopHeartbeat()]: lines 70-76. *)
Definition stopHeartbeat (h : Heartbeat) : Heartbeat :=
  match heartbeatInterval h with
  | Some i => mkHeartbeat None (hb_next_handle h) (filter (fun j => negb (Nat.eqb i j)) (hb_active h))
  | None => h
  end.

(** The constructor (lines 32-34) starts from no interval. *)
Definition heartbeat_init : Heartbeat := startHeartbeat (mkHeartbeat None 0 []).

Inductive HeartbeatOp := HbStart | HbStop.

Definition hb_step (o : HeartbeatOp) (h : Heartbeat) : Heartbeat :=
  match o with HbStart => startHeartbeat h | HbStop => stopHeartbeat h end.

(** ** The WebSocket server singleton (ws/server.ts, lines 8-13, 47 and 50-56)

    [ws_listening] lists the servers created and not closed. *)
Record WsModule := mkWsModule {
  wss : option nat;
  ws_next_server : nat;
  ws_listening : list nat
}.

(** [startWebSocketServer()]: returns the running server, or creates one. *)
Definition startWebSocketServer (s : WsModule) : nat * WsModule :=
  match wss s with
  | Some w => (w, s)
  | None => (ws_next_server s,
             mkWsModule (Some (ws_next_server s)) (S (ws_next_server s))
                        (ws_listening s ++ [ws_next_server s]))
  end.

(** [stopWebSocketServer()]. *)
Definition stopWebSocketServer (s : WsModule) : WsModule :=
  match wss s with
  | Some w => mkWsModule None (ws_next_server s) (filter (fun j => negb (Nat.eqb w j)) (ws_listening s))
  | None => s
  end.

Inductive WsOp := WsStart | WsStop.

Definition ws_step (o : WsOp) (s : WsModule) : WsModule :=
  match o with WsStart => snd (startWebSocketServer s) | WsStop => stopWebSocketServer s end.

(** The module state on load: [let wss = null]. *)
Definition ws_init : WsModule := mkWsModule None 0 [].

Definition hb_run (ops : list HeartbeatOp) : Heartbeat := fold_left (fun h o => hb_step o h) ops heartbeat_init.
Definition ws_run (ops : list WsOp) : WsModule := fold_left (fun s o => ws_step o s) ops ws_init.

(** * Lemmas *)

(** ** Association lists *)
Section JsMapFacts.
Context {V : Type}.
Implicit Types (l : list (string * V)) (k : string) (v : V).

Lemma map_get_In l k v : map_get l k = Some v -> In (k, v) l.
Proof.
  induction l as [|[k' v'] t IH]; simpl; [discriminate|].
  destruct (String.eqb_spec k k'); intros H.
  - inversion H; subst; auto.
  - auto.
Qed.

Lemma In_map_get l k v : NoDup (map fst l) -> In (k, v) l -> map_get l k = Some v.
Proof.
  induction l as [|[k' v'] t IH]; simpl; [tauto|].
  intros Hnd Hin. inversion Hnd as [|? ? Hnot Hnd']; subst.
  destruct (String.eqb_spec k k') as [->|Hne]; destruct Hin as [Heq|Hin].
  - inversion Heq; subst; reflexivity.
  - exfalso. apply Hnot. apply (in_map fst) in Hin. exact Hin.
  - inversion Heq; subst; contradiction.
  - auto.
Qed.

Lemma map_get_None_In l k v : map_get l k = None -> ~ In (k, v) l.
Proof.
  induction l as [|[k' v'] t IH]; simpl; [auto|].
  destruct (String.eqb_spec k k'); [discriminate|].
  intros H [Heq|Hin]; [inversion Heq; subst; contradiction|].
  exact (IH H Hin).
Qed.

Lemma map_get_In_ex l k v : In (k, v) l -> exists v', map_get l k = Some v'.
Proof.
  induction l as [|[k' v'] t IH]; simpl; [tauto|].
  destruct (String.eqb_spec k k'); [eauto|].
  intros [Heq|Hin]; [inversion Heq; subst; contradiction|auto].
Qed.

Lemma map_set_keys l k v x : In x (map fst (map_set l k v)) -> In x (map fst l) \/ x = k.
Proof.
  induction l as [|[k' v'] t IH]; simpl.
  - intros [H|[]]; auto.
  - destruct (String.eqb_spec k k'); simpl.
    + intros [H|H]; auto.
    + intros [H|H]; [auto|]. destruct (IH H); auto.
Qed.

Lemma map_set_NoDup_keys l k v : NoDup (map fst l) -> NoDup (map fst (map_set l k v)).
Proof.
  induction l as [|[k' v'] t IH]; simpl; intros Hnd.
  - constructor; [simpl; tauto|constructor].
  - inversion Hnd; subst.
    destruct (String.eqb_spec k k'); simpl; constructor; auto.
    intros Hin. destruct (map_set_keys t k v k' Hin); auto.
Qed.

Lemma map_set_vals l k v x : In x (map snd (map_set l k v)) -> In x (map snd l) \/ x = v.
Proof.
  induction l as [|[k' v'] t IH]; simpl.
  - intros [H|[]]; auto.
  - destruct (String.eqb_spec k k'); simpl.
    + intros [H|H]; auto.
    + intros [H|H]; [auto|]. destruct (IH H); auto.
Qed.

Lemma map_set_NoDup_vals l k v :
  NoDup (map snd l) -> ~ In v (map snd l) -> NoDup (map snd (map_set l k v)).
Proof.
  induction l as [|[k' v'] t IH]; simpl; intros Hnd Hfresh.
  - constructor; [simpl; tauto|constructor].
  - inversion Hnd; subst.
    destruct (String.eqb_spec k k'); simpl; constructor; auto.
    intros Hin. destruct (map_set_vals t k v v' Hin); auto.
Qed.

Lemma map_set_In l k v k' v' :
  NoDup (map fst l) -> In (k', v') (map_set l k v) ->
  (k' = k /\ v' = v) \/ (k' <> k /\ In (k', v') l).
Proof.
  induction l as [|[k0 v0] t IH]; simpl; intros Hnd Hin.
  - destruct Hin as [H|[]]. inversion H; auto.
  - inversion Hnd as [|? ? Hnot Hnd']; subst.
    destruct (String.eqb_spec k k0) as [->|Hne]; destruct Hin as [H|H].
    + inversion H; auto.
    + right. split; [|auto]. intros ->. apply Hnot. apply (in_map fst) in H. exact H.
    + inversion H; subst. right. auto.
    + destruct (IH Hnd' H) as [?|[? ?]]; auto.
Qed.

Lemma map_set_In_new l k v : In (k, v) (map_set l k v).
Proof.
  induction l as [|[k' v'] t IH]; simpl; [auto|].
  destruct (String.eqb_spec k k'); simpl; subst; auto.
Qed.

Lemma map_set_In_other l k v k' v' : In (k', v') l -> k' <> k -> In (k', v') (map_set l k v).
Proof.
  induction l as [|[k0 v0] t IH]; simpl; [tauto|].
  destruct (String.eqb_spec k k0); simpl; intros [H|H] Hne; auto.
  inversion H; subst; contradiction.
Qed.

Lemma map_set_not_nil l k v : map_set l k v <> [].
Proof. destruct l as [|[k' v'] t]; simpl; [discriminate|]. destruct (String.eqb k k'); discriminate. Qed.

Lemma map_set_absent l k v : map_get l k = None -> map_set l k v = l ++ [(k, v)].
Proof.
  induction l as [|[k' v'] t IH]; simpl; [reflexivity|].
  destruct (String.eqb k k'); [discriminate|]. intros H. rewrite IH; auto.
Qed.

Lemma map_delete_In l k x : In x (map_delete l k) <-> In x l /\ fst x <> k.
Proof.
  unfold map_delete. rewrite filter_In.
  destruct (String.eqb_spec k (fst x)); simpl; intuition congruence.
Qed.

Lemma map_delete_absent l k : map_get l k = None -> map_delete l k = l.
Proof.
  unfold map_delete. induction l as [|[k' v'] t IH]; simpl; [reflexivity|].
  destruct (String.eqb k k'); simpl; [discriminate|]. intros H. rewrite IH; auto.
Qed.

Lemma map_delete_set_absent l k v : map_get l k = None -> map_delete (map_set l k v) k = l.
Proof.
  intros H. rewrite map_set_absent by exact H. unfold map_delete.
  rewrite filter_app. simpl. rewrite String.eqb_refl. simpl. rewrite app_nil_r.
  apply map_delete_absent. exact H.
Qed.

Lemma map_get_delete_other l k k' : k' <> k -> map_get (map_delete l k) k' = map_get l k'.
Proof.
  intros Hne. unfold map_delete. induction l as [|[k0 v0] t IH]; simpl; [reflexivity|].
  destruct (String.eqb_spec k k0) as [->|]; simpl.
  - destruct (String.eqb_spec k' k0); [contradiction|]. exact IH.
  - destruct (String.eqb k' k0); auto.
Qed.

Lemma map_get_set_other l k v k' : k' <> k -> map_get (map_set l k v) k' = map_get l k'.
Proof.
  intros Hne. induction l as [|[k0 v0] t IH]; simpl.
  - destruct (String.eqb_spec k' k); [contradiction|reflexivity].
  - destruct (String.eqb_spec k k0) as [->|]; simpl.
    + destruct (String.eqb_spec k' k0); [contradiction|reflexivity].
    + destruct (String.eqb k' k0); auto.
Qed.

End JsMapFacts.

Lemma NoDup_map_filter {A B} (f : A -> B) (g : A -> bool) (l : list A) :
  NoDup (map f l) -> NoDup (map f (filter g l)).
Proof.
  induction l as [|x t IH]; simpl; intros Hnd; [constructor|].
  inversion Hnd; subst. destruct (g x); simpl; [|auto].
  constructor; [|auto]. intros Hin. apply in_map_iff in Hin as [y [Hy Hin]].
  apply filter_In in Hin as [Hin _]. apply H1. rewrite <- Hy. apply in_map. exact Hin.
Qed.

Lemma NoDup_map_inj {A B} (f : A -> B) (l : list A) x y :
  NoDup (map f l) -> In x l -> In y l -> f x = f y -> x = y.
Proof.
  induction l as [|z t IH]; simpl; [tauto|]. intros Hnd Hx Hy Hf.
  inversion Hnd as [|? ? Hnot Hnd']; subst.
  destruct Hx as [<-|Hx], Hy as [<-|Hy]; auto.
  - exfalso. apply Hnot. rewrite Hf. apply in_map. exact Hy.
  - exfalso. apply Hnot. rewrite <- Hf. apply in_map. exact Hx.
Qed.

Lemma nth_error_list_update {A} (l : list A) n f i :
  nth_error (list_update l n f) i =
  if Nat.eqb i n then option_map f (nth_error l i) else nth_error l i.
Proof.
  revert n i. induction l as [|x t IH]; intros [|n] [|i]; simpl; auto;
    try (destruct (Nat.eqb _ _); reflexivity).
Qed.

Lemma length_list_update {A} (l : list A) n f : length (list_update l n f) = length l.
Proof. revert n. induction l; intros [|n]; simpl; auto. Qed.

Lemma filter_filter_and {A} (f g : A -> bool) (l : list A) :
  filter g (filter f l) = filter (fun x => f x && g x) l.
Proof.
  induction l as [|x t IH]; simpl; [reflexivity|].
  destruct (f x); simpl; [destruct (g x); simpl|]; rewrite IH; reflexivity.
Qed.

(** ** The loop of [unregister] in closed form *)

Definition rejected_in (ps : list (string * PendingRequest)) (h : nat) : bool :=
  existsb (fun kv => Nat.eqb (timeout (snd kv)) h) ps.

Definition loss_calls (ps : list (string * PendingRequest)) : list (nat * Arm * Settlement) :=
  map (fun kv => (pending_promise (snd kv), ArmLoss, Reject "Executor disconnected")) ps.

Lemma reject_all_spec ps m :
  reject_all ps m =
  mkManager (executors m) (defaultExecutorId m) (heap m)
            (filter (fun t => negb (rejected_in ps (fst t))) (timers m))
            (next_handle m) (calls m ++ loss_calls ps) (traffic m) (closes m).
Proof.
  unfold reject_all. revert m. induction ps as [|kv ps IH]; intros m; simpl.
  - rewrite app_nil_r.
    replace (filter (fun _ => true) (timers m)) with (timers m)
      by (induction (timers m) as [|x t IHt]; simpl; congruence).
    destruct m; reflexivity.
  - rewrite IH. cbn. rewrite filter_filter_and, <- app_assoc. simpl. f_equal.
    apply filter_ext. intros t. rewrite negb_orb. reflexivity.
Qed.

(** ** Promise callbacks *)

Definition count_calls (m : Manager) (p : nat) : nat :=
  length (filter (fun c => Nat.eqb (fst (fst c)) p) (calls m)).

Lemma count_calls_app m l p :
  length (filter (fun c => Nat.eqb (fst (fst c)) p) (calls m ++ l)) =
  count_calls m p + length (filter (fun c => Nat.eqb (fst (fst c)) p) l).
Proof. unfold count_calls. rewrite filter_app, length_app. reflexivity. Qed.

(** The shape of each callback invocation: a rejection only on connection
    loss, a timeout or send-failure Result otherwise (a reply is passed on
    verbatim). *)
Definition call_ok (a : Arm) (s : Settlement) : Prop :=
  match a, s with
  | ArmLoss, Reject msg => msg = "Executor disconnected"%string
  | ArmTimeout, Resolve r => r = timeout_result (res_id r)
  | ArmSendFail, Resolve r =>
      success r = false /\ exists e, error r = Some ("Failed to send command: " ++ e)%string
  | ArmReply, Resolve _ => True
  | _, _ => False
  end.

(** ** Well-formedness of reachable states *)

Definition registered_entry (m : Manager) (r : nat) (k : string) (e : PendingRequest) : Prop :=
  exists id c, In (id, r) (executors m) /\ nth_error (heap m) r = Some c /\
               In (k, e) (pendingRequests c).

Record wf (m : Manager) : Prop := {
  wf_keys : NoDup (map fst (executors m));
  wf_refs : NoDup (map snd (executors m));
  wf_live : forall id r, In (id, r) (executors m) -> r < length (heap m);
  wf_default_none : defaultExecutorId m = None <-> executors m = [];
  wf_default_live : forall d, defaultExecutorId m = Some d -> exists r, In (d, r) (executors m);
  wf_pending_keys : forall r c, nth_error (heap m) r = Some c -> NoDup (map fst (pendingRequests c));
  wf_timer : forall h t, In (h, t) (timers m) ->
             h = task_promise t /\ count_calls m h = 0 /\ h < next_handle m;
  wf_timer_handles : NoDup (map fst (timers m));
  wf_entry : forall r k e, registered_entry m r k e ->
             timeout e = pending_promise e /\ In (pending_promise e, mkTask r k (pending_promise e)) (timers m);
  wf_once : forall p, count_calls m p <= 1;
  wf_calls_fresh : forall p a s, In (p, a, s) (calls m) -> p < next_handle m;
  wf_settled_or_armed : forall p, p < next_handle m -> count_calls m p = 1 \/ exists t, In (p, t) (timers m);
  wf_calls_ok : forall p a s, In (p, a, s) (calls m) -> call_ok a s
}.

Lemma wf_empty : wf emptyManager.
Proof.
  constructor; cbn.
  - constructor.
  - constructor.
  - intros id r [].
  - tauto.
  - discriminate.
  - intros [|r] c Hc; discriminate.
  - intros h t [].
  - constructor.
  - intros r k e (id & c & [] & _).
  - intros p. unfold count_calls. simpl. lia.
  - intros p a s [].
  - intros p Hp. lia.
  - intros p a s [].
Qed.

(** ** Operations that touch neither the registry nor any pending map *)

Lemma wf_frame m m' :
  executors m' = executors m -> defaultExecutorId m' = defaultExecutorId m ->
  length (heap m') = length (heap m) ->
  (forall r c', nth_error (heap m') r = Some c' ->
     exists c, nth_error (heap m) r = Some c /\ pendingRequests c' = pendingRequests c) ->
  timers m' = timers m -> next_handle m' = next_handle m -> calls m' = calls m ->
  wf m -> wf m'.
Proof.
  intros He Hd Hl Hh Ht Hn Hc W.
  assert (Hcnt : forall p, count_calls m' p = count_calls m p)
    by (intros p; unfold count_calls; rewrite Hc; reflexivity).
  constructor; rewrite ?He, ?Hd, ?Hl, ?Ht, ?Hn, ?Hc.
  - apply W.
  - apply W.
  - apply W.
  - apply W.
  - apply W.
  - intros r c' Hr. destruct (Hh r c' Hr) as (c & Hc0 & Hp). rewrite Hp. eapply wf_pending_keys; eauto.
  - intros h t Hin. rewrite Hcnt. apply W. exact Hin.
  - apply W.
  - intros r k e (id & c' & Hin & Hr & Hk). destruct (Hh r c' Hr) as (c & Hc0 & Hp).
    apply (wf_entry m W). exists id, c. rewrite <- He, <- Hp. auto.
  - intros p. rewrite Hcnt. apply W.
  - apply W.
  - intros p Hp. rewrite Hcnt. apply W. exact Hp.
  - apply W.
Qed.

Lemma update_conn_frame m r f :
  (forall c, pendingRequests (f c) = pendingRequests c) -> wf m -> wf (update_conn m r f).
Proof.
  intros Hf. apply wf_frame; cbn; auto.
  - apply length_list_update.
  - intros r' c' Hr'. rewrite nth_error_list_update in Hr'.
    destruct (Nat.eqb r' r); [|eauto].
    destruct (nth_error (heap m) r') as [c|] eqn:E; simpl in Hr'; [|discriminate].
    inversion Hr'; subst. eauto.
Qed.

Fixpoint stale_pings (now : Z) (h : list ExecutorConnection) (l : list (string * nat))
    : list (nat * Outbound) :=
  match l with
  | [] => []
  | (_, r) :: t =>
      match nth_error h r with
      | Some c => if Z.ltb HEARTBEAT_TIMEOUT (now - lastActiveAt c)
                  then (ws c, OControlPing) :: stale_pings now h t
                  else stale_pings now h t
      | None => stale_pings now h t
      end
  end.

Lemma checkConnections_spec now m :
  checkConnections now m = set_traffic m (traffic m ++ stale_pings now (heap m) (executors m)).
Proof.
  unfold checkConnections.
  assert (G : forall l acc,
    fold_left (fun acc kv =>
                 match nth_error (heap m) (snd kv) with
                 | Some c => if Z.ltb HEARTBEAT_TIMEOUT (now - lastActiveAt c)
                             then sendPing c acc else acc
                 | None => acc
                 end) l acc
    = set_traffic acc (traffic acc ++ stale_pings now (heap m) l)).
  { induction l as [|[id r] t IH]; intros acc; simpl.
    - rewrite app_nil_r. destruct acc; reflexivity.
    - destruct (nth_error (heap m) r) as [c|]; [|apply IH].
      destruct (Z.ltb HEARTBEAT_TIMEOUT (now - lastActiveAt c)); [|apply IH].
      rewrite IH. unfold sendPing, send. cbn. rewrite <- app_assoc. reflexivity. }
  apply G.
Qed.

Lemma wf_checkConnections now m : wf m -> wf (checkConnections now m).
Proof.
  rewrite checkConnections_spec. apply wf_frame; cbn; auto.
  intros r c' H. eauto.
Qed.

Lemma wf_setDefault id m : wf m -> wf (snd (setDefault id m)).
Proof.
  unfold setDefault. destruct (map_get (executors m) id) as [r|] eqn:E; simpl; [|auto].
  intros W. constructor; cbn; try apply W.
  - split; [discriminate|]. intros Hn. rewrite Hn in E. discriminate.
  - intros d Hd. inversion Hd; subst. exists r. apply map_get_In. exact E.
Qed.

Lemma wf_handleMessage_state id mt now m : wf m -> wf (updateState id mt now m).
Proof.
  unfold updateState. destruct (lookup_exec m id) as [[r c]|]; [|auto].
  apply update_conn_frame. reflexivity.
Qed.

Lemma wf_pong id now m :
  wf m -> wf (match lookup_exec m id with
              | Some (r, _) => update_conn m r (fun c => with_lastActive c now)
              | None => m
              end).
Proof.
  destruct (lookup_exec m id) as [[r c]|]; [|auto].
  apply update_conn_frame. reflexivity.
Qed.

(** ** [register] *)

Lemma nth_error_app_new {A} (l : list A) (x : A) r y :
  nth_error (l ++ [x]) r = Some y -> (r < length l /\ nth_error l r = Some y) \/ (r = length l /\ y = x).
Proof.
  intros H. destruct (Nat.lt_ge_cases r (length l)) as [Hlt|Hge].
  - left. rewrite nth_error_app1 in H by exact Hlt. auto.
  - right. rewrite nth_error_app2 in H by exact Hge.
    destruct (r - length l) as [|n] eqn:E; simpl in H.
    + inversion H; split; [lia|reflexivity].
    + destruct n; discriminate.
Qed.

Definition register_tail (w : nat) (i : ExecutorRegister) (now : Z) (m1 : Manager) : Manager :=
  let r := length (heap m1) in
  let m2 := set_heap m1 (heap m1 ++ [mkConn w i now now []]) in
  let m3 := set_executors m2 (map_set (executors m2) (executorId i) r) in
  if negb (truthy (defaultExecutorId m3)) then set_default m3 (Some (executorId i)) else m3.

Lemma register_unfold w i now m :
  register w i now m =
  register_tail w i now (match lookup_exec m (executorId i) with
                         | Some (_, existing) => set_closes m (closes m ++ [ws existing])
                         | None => m
                         end).
Proof. reflexivity. Qed.

Lemma wf_register_tail w i now m : wf m -> wf (register_tail w i now m).
Proof.
  intros W. unfold register_tail.
  set (key := executorId i). set (r := length (heap m)).
  set (nc := mkConn w i now now []).
  assert (Hfresh : ~ In r (map snd (executors m))).
  { intros Hin. apply in_map_iff in Hin as [[id r'] [Hr' Hin]]. simpl in Hr'. subst r'.
    apply (wf_live m W) in Hin. unfold r in Hin. lia. }
  assert (Hlive : forall id r', In (id, r') (map_set (executors m) key r) -> r' < S (length (heap m))).
  { intros id r' Hin. destruct (map_set_In _ _ _ _ _ (wf_keys m W) Hin) as [[_ ->]|[_ Hin']].
    - unfold r. lia.
    - apply (wf_live m W) in Hin'. lia. }
  assert (Hnil : map_set (executors m) key r <> []) by apply map_set_not_nil.
  assert (Hold_live : forall d, defaultExecutorId m = Some d ->
            exists r', In (d, r') (map_set (executors m) key r)).
  { intros d Hd. destruct (wf_default_live m W d Hd) as [r0 Hr0].
    destruct (String.eqb_spec d key) as [->|Hne].
    - exists r. apply map_set_In_new.
    - exists r0. apply map_set_In_other; auto. }
  assert (Hentry : forall r' k e id c,
            In (id, r') (map_set (executors m) key r) ->
            nth_error (heap m ++ [nc]) r' = Some c -> In (k, e) (pendingRequests c) ->
            registered_entry m r' k e).
  { intros r' k e id c Hin Hc Hk.
    destruct (map_set_In _ _ _ _ _ (wf_keys m W) Hin) as [[_ ->]|[_ Hin']].
    - destruct (nth_error_app_new _ _ _ _ Hc) as [[Hlt _]|[_ ->]]; [unfold r in Hlt; lia|].
      destruct Hk.
    - exists id, c. split; [exact Hin'|]. split; [|exact Hk].
      rewrite nth_error_app1 in Hc by (apply (wf_live m W) in Hin'; exact Hin'). exact Hc. }
  assert (Hpk : forall r' c, nth_error (heap m ++ [nc]) r' = Some c -> NoDup (map fst (pendingRequests c))).
  { intros r' c Hc. destruct (nth_error_app_new _ _ _ _ Hc) as [[_ Hc']|[_ ->]].
    - eapply (wf_pending_keys m W); eauto.
    - constructor. }
  destruct (negb (truthy (defaultExecutorId m))) eqn:Ht; cbn; rewrite ?Ht.
  - constructor; cbn; try apply W.
    + apply map_set_NoDup_keys, W.
    + apply map_set_NoDup_vals; [apply W|exact Hfresh].
    + rewrite length_app. simpl. intros id r' Hin. rewrite Nat.add_1_r. eapply Hlive; eauto.
    + split; [discriminate|]. intros H. contradiction.
    + intros d Hd. inversion Hd; subst. exists r. apply map_set_In_new.
    + exact Hpk.
    + intros r' k e (id & c & Hin & Hc & Hk). apply (wf_entry m W). eapply Hentry; eauto.
  - constructor; cbn; try apply W.
    + apply map_set_NoDup_keys, W.
    + apply map_set_NoDup_vals; [apply W|exact Hfresh].
    + rewrite length_app. simpl. intros id r' Hin. rewrite Nat.add_1_r. eapply Hlive; eauto.
    + split; [|intros H; contradiction].
      intros Hd. rewrite Hd in Ht. discriminate.
    + exact Hold_live.
    + exact Hpk.
    + intros r' k e (id & c & Hin & Hc & Hk). apply (wf_entry m W). eapply Hentry; eauto.
Qed.

Lemma wf_register w i now m : wf m -> wf (register w i now m).
Proof.
  intros W. rewrite register_unfold. apply wf_register_tail.
  destruct (lookup_exec m (executorId i)) as [[r c]|]; [|exact W].
  apply (wf_frame m); cbn; eauto.
Qed.

(** ** [unregister] *)

Lemma NoDup_map_transfer {A B C} (f : A -> B) (g : A -> C) (l : list A) :
  NoDup (map g l) -> (forall x y, In x l -> In y l -> f x = f y -> g x = g y) -> NoDup (map f l).
Proof.
  induction l as [|x t IH]; simpl; intros Hnd Hinj; [constructor|].
  inversion Hnd as [|? ? Hnot Hnd']; subst. constructor.
  - intros Hin. apply in_map_iff in Hin as [y [Hy Hin]]. apply Hnot.
    rewrite (Hinj x y); auto. apply in_map. exact Hin.
  - apply IH; auto.
Qed.

Lemma filter_count_zero {A} (f : A -> nat) (l : list A) p :
  ~ In p (map f l) -> length (filter (fun x => Nat.eqb (f x) p) l) = 0.
Proof.
  induction l as [|x t IH]; simpl; [reflexivity|]. intros Hn.
  destruct (Nat.eqb_spec (f x) p); [exfalso; auto|]. apply IH. auto.
Qed.

Lemma filter_count_le1 {A} (f : A -> nat) (l : list A) p :
  NoDup (map f l) -> length (filter (fun x => Nat.eqb (f x) p) l) <= 1.
Proof.
  induction l as [|x t IH]; simpl; intros Hnd; [lia|]. inversion Hnd; subst.
  destruct (Nat.eqb_spec (f x) p) as [<-|]; simpl.
  - rewrite filter_count_zero by assumption. lia.
  - auto.
Qed.

Lemma filter_count_pos {A} (f : A -> nat) (l : list A) p :
  0 < length (filter (fun x => Nat.eqb (f x) p) l) <-> exists x, In x l /\ f x = p.
Proof.
  induction l as [|x t IH]; simpl.
  - split; [lia|]. intros (? & [] & _).
  - destruct (Nat.eqb_spec (f x) p); simpl.
    + split; [eauto|lia].
    + rewrite IH. split; [intros (y & ? & ?); eauto|].
      intros (y & [<-|?] & ?); [contradiction|eauto].
Qed.

Lemma count_loss_calls ps p :
  length (filter (fun c => Nat.eqb (fst (fst c)) p) (loss_calls ps)) =
  length (filter (fun kv => Nat.eqb (pending_promise (snd kv)) p) ps).
Proof. induction ps as [|kv t IH]; simpl; [reflexivity|]. destruct (Nat.eqb _ p); simpl; auto. Qed.

Lemma rejected_in_spec ps h : rejected_in ps h = true <-> exists kv, In kv ps /\ timeout (snd kv) = h.
Proof.
  unfold rejected_in. rewrite existsb_exists.
  split; intros (kv & Hin & H); exists kv; split; auto; apply Nat.eqb_eq; auto.
Qed.

Lemma lookup_exec_Some m id r c :
  lookup_exec m id = Some (r, c) -> map_get (executors m) id = Some r /\ nth_error (heap m) r = Some c.
Proof.
  unfold lookup_exec, conn_at. destruct (map_get (executors m) id); [|discriminate].
  destruct (nth_error (heap m) n) eqn:E; [|discriminate]. intros H; inversion H; subst; auto.
Qed.

Lemma unregister_spec id m r c :
  lookup_exec m id = Some (r, c) ->
  unregister id m =
  let ex := map_delete (executors m) id in
  mkManager ex
            (match defaultExecutorId m with
             | Some d => if String.eqb d id then hd_error (map_keys ex) else Some d
             | None => None
             end)
            (heap m)
            (filter (fun t => negb (rejected_in (pendingRequests c) (fst t))) (timers m))
            (next_handle m) (calls m ++ loss_calls (pendingRequests c)) (traffic m) (closes m).
Proof.
  intros H. unfold unregister. rewrite H, reject_all_spec. cbn.
  destruct (defaultExecutorId m) as [d|]; [|reflexivity].
  destruct (String.eqb d id); reflexivity.
Qed.

Lemma wf_unregister id m : wf m -> wf (unregister id m).
Proof.
  intros W. destruct (lookup_exec m id) as [[r c]|] eqn:L;
    [|unfold unregister; rewrite L; exact W].
  destruct (lookup_exec_Some _ _ _ _ L) as [Hg Hc].
  assert (Hin : In (id, r) (executors m)) by (apply map_get_In; exact Hg).
  rewrite (unregister_spec _ _ _ _ L). cbv zeta.
  set (ps := pendingRequests c).
  assert (Hreg : forall kv, In kv ps -> registered_entry m r (fst kv) (snd kv)).
  { intros [k e] Hkv. exists id, c. auto. }
  assert (Htm : forall kv, In kv ps ->
            timeout (snd kv) = pending_promise (snd kv) /\
            In (pending_promise (snd kv), mkTask r (fst kv) (pending_promise (snd kv))) (timers m)).
  { intros kv Hkv. apply (wf_entry m W). apply Hreg. exact Hkv. }
  assert (Hnd : NoDup (map (fun kv => pending_promise (snd kv)) ps)).
  { apply (NoDup_map_transfer _ fst); [eapply (wf_pending_keys m W); eauto|].
    intros x y Hx Hy Hxy.
    destruct (Htm x Hx) as [_ Tx]. destruct (Htm y Hy) as [_ Ty]. rewrite Hxy in Tx.
    pose proof (NoDup_map_inj fst _ _ _ (wf_timer_handles m W) Tx Ty eq_refl) as E.
    inversion E. reflexivity. }
  assert (Hcount : forall p, length (filter (fun t => Nat.eqb (fst (fst t)) p)
                              (calls m ++ loss_calls ps)) =
                     count_calls m p + length (filter (fun kv => Nat.eqb (pending_promise (snd kv)) p) ps)).
  { intros p. rewrite filter_app, length_app, count_loss_calls. reflexivity. }
  assert (Hrej0 : forall p, 0 < length (filter (fun kv => Nat.eqb (pending_promise (snd kv)) p) ps) ->
                  count_calls m p = 0 /\ p < next_handle m /\ exists t, In (p, t) (timers m)).
  { intros p Hp. apply filter_count_pos in Hp as (kv & Hkv & <-).
    destruct (Htm kv Hkv) as [_ T]. destruct (wf_timer m W _ _ T) as (_ & ? & ?). eauto. }
  assert (Honce : forall p, length (filter (fun t => Nat.eqb (fst (fst t)) p)
                               (calls m ++ loss_calls ps)) <= 1).
  { intros p. rewrite Hcount.
    pose proof (filter_count_le1 _ _ p Hnd) as Hle.
    destruct (Nat.eq_dec (length (filter (fun kv => Nat.eqb (pending_promise (snd kv)) p) ps)) 0) as [E|E].
    - rewrite E. pose proof (wf_once m W p). unfold count_calls in *. lia.
    - destruct (Hrej0 p) as [Hz _]; [apply Nat.neq_0_lt_0; exact E|]. unfold count_calls in *. lia. }
  assert (Hnotrej : forall t, In t (timers m) -> rejected_in ps (fst t) = false ->
            length (filter (fun kv => Nat.eqb (pending_promise (snd kv)) (fst t)) ps) = 0).
  { intros [h tk] Ht Hr. simpl in *. destruct (length _) eqn:E; [reflexivity|].
    exfalso. assert (Hp : 0 < S n) by lia. rewrite <- E in Hp.
    apply filter_count_pos in Hp as (kv & Hkv & Hp).
    destruct (Htm kv Hkv) as [Heq _]. rewrite <- Heq in Hp.
    assert (rejected_in ps h = true) by (apply rejected_in_spec; eauto). congruence. }
  constructor; cbn.
  - apply NoDup_map_filter, W.
  - apply NoDup_map_filter, W.
  - intros id' r' H. apply map_delete_In in H as [H _]. exact (wf_live m W _ _ H).
  - destruct (defaultExecutorId m) as [d|] eqn:Hd.
    + destruct (String.eqb_spec d id) as [->|Hne].
      * unfold map_keys. destruct (map_delete (executors m) id); simpl; split; congruence.
      * destruct (wf_default_live m W d Hd) as [r0 Hr0].
        assert (In (d, r0) (map_delete (executors m) id)) by (apply map_delete_In; auto).
        split; [discriminate|]. intros E. rewrite E in H. destruct H.
    + exfalso. apply (wf_default_none m W) in Hd. rewrite Hd in Hin. destruct Hin.
  - intros d0 Hd0. destruct (defaultExecutorId m) as [d|] eqn:Hd; [|discriminate].
    destruct (String.eqb_spec d id) as [->|Hne].
    + unfold map_keys in Hd0. destruct (map_delete (executors m) id) as [|[k0 r0] t] eqn:E;
        simpl in Hd0; [discriminate|]. inversion Hd0; subst. exists r0. left. reflexivity.
    + inversion Hd0; subst. destruct (wf_default_live m W d0 Hd) as [r0 Hr0].
      exists r0. apply map_delete_In; auto.
  - apply W.
  - intros h t Ht. apply filter_In in Ht as [Ht Hr]. apply negb_true_iff in Hr.
    destruct (wf_timer m W h t Ht) as (? & ? & ?). split; [auto|]. split; [|auto].
    rewrite Hcount. pose proof (Hnotrej (h, t) Ht Hr) as Hz0. simpl in Hz0. lia.
  - apply NoDup_map_filter, W.
  - intros r' k e (id' & c' & Hin' & Hc' & Hk'). cbn in *.
    apply map_delete_In in Hin' as [Hin' Hne]. simpl in Hne.
    assert (R : registered_entry m r' k e) by (exists id', c'; auto).
    destruct (wf_entry m W r' k e R) as [Heq T]. split; [exact Heq|].
    apply filter_In. split; [exact T|]. apply negb_true_iff. simpl.
    destruct (rejected_in ps (pending_promise e)) eqn:E; [|reflexivity]. exfalso.
    apply rejected_in_spec in E as (kv & Hkv & Hto). destruct (Htm kv Hkv) as [Heq' T'].
    rewrite <- Heq', Hto in T'.
    pose proof (NoDup_map_inj fst _ _ _ (wf_timer_handles m W) T T' eq_refl) as E.
    inversion E; subst.
    pose proof (NoDup_map_inj snd _ _ _ (wf_refs m W) Hin Hin' eq_refl) as E'.
    inversion E'; subst. contradiction.
  - exact Honce.
  - intros p a s Hps. apply in_app_or in Hps as [Hps|Hps]; [exact (wf_calls_fresh m W _ _ _ Hps)|].
    unfold loss_calls in Hps. apply in_map_iff in Hps as (kv & E & Hkv). inversion E; subst.
    destruct (Htm kv Hkv) as [_ T]. exact (proj2 (proj2 (wf_timer m W _ _ T))).
  - intros p Hp. destruct (wf_settled_or_armed m W p Hp) as [H1|[t Ht]].
    + left. pose proof (Honce p). rewrite Hcount in *. unfold count_calls in *. lia.
    + destruct (rejected_in ps p) eqn:E.
      * left. apply rejected_in_spec in E as (kv & Hkv & Hto).
        destruct (Htm kv Hkv) as [Heq _]. rewrite Heq in Hto.
        assert (0 < length (filter (fun kv => Nat.eqb (pending_promise (snd kv)) p) ps))
          by (apply filter_count_pos; eauto).
        pose proof (Honce p). rewrite Hcount in *. unfold count_calls in *. lia.
      * right. exists t. apply filter_In. split; [exact Ht|]. simpl. rewrite E. reflexivity.
  - intros p a s Hps. apply in_app_or in Hps as [Hps|Hps]; [exact (wf_calls_ok m W _ _ _ Hps)|].
    unfold loss_calls in Hps. apply in_map_iff in Hps as (kv & E & Hkv). inversion E; subst.
    reflexivity.
Qed.

(** ** Settling one request: reply, timeout and send failure *)

Definition drop_entry (k : string) (c : ExecutorConnection) : ExecutorConnection :=
  with_pending c (map_delete (pendingRequests c) k).

Lemma wf_settle m r k p a s :
  wf m -> In (p, mkTask r k p) (timers m) -> call_ok a s ->
  wf (invoke (update_conn (clearTimeout m p) r (drop_entry k)) p a s).
Proof.
  intros W T Hok.
  destruct (wf_timer m W _ _ T) as (_ & Hc0 & Hlt).
  set (M := invoke (update_conn (clearTimeout m p) r (drop_entry k)) p a s).
  assert (Hex : executors M = executors m) by reflexivity.
  assert (Hdf : defaultExecutorId M = defaultExecutorId m) by reflexivity.
  assert (Hhp : heap M = list_update (heap m) r (drop_entry k)) by reflexivity.
  assert (Htm : timers M = filter (fun t => negb (Nat.eqb p (fst t))) (timers m)) by reflexivity.
  assert (Hnx : next_handle M = next_handle m) by reflexivity.
  assert (Hcl : calls M = calls m ++ [(p, a, s)]) by reflexivity.
  assert (Hcnt : forall q, count_calls M q = count_calls m q + (if Nat.eqb p q then 1 else 0)).
  { intros q. unfold count_calls at 1. rewrite Hcl, count_calls_app. simpl.
    destruct (Nat.eqb p q); reflexivity. }
  assert (Hheap : forall r' c', nth_error (list_update (heap m) r (drop_entry k)) r' = Some c' ->
            exists c, nth_error (heap m) r' = Some c /\
                      (if Nat.eqb r' r then c' = drop_entry k c else c' = c)).
  { intros r' c' H. rewrite nth_error_list_update in H.
    destruct (Nat.eqb r' r); [|eauto].
    destruct (nth_error (heap m) r') as [c|]; simpl in H; [|discriminate].
    inversion H; subst. eauto. }
  clearbody M.
  constructor; unfold registered_entry; rewrite ?Hex, ?Hdf, ?Hhp, ?Htm, ?Hnx, ?Hcl; try apply W.
  - rewrite length_list_update. apply W.
  - intros r' c' H. destruct (Hheap r' c' H) as (c & Hc & E).
    destruct (Nat.eqb r' r); subst.
    + apply NoDup_map_filter. eapply (wf_pending_keys m W); eauto.
    + eapply (wf_pending_keys m W); eauto.
  - intros h t Ht. apply filter_In in Ht as [Ht Hne]. apply negb_true_iff, Nat.eqb_neq in Hne.
    destruct (wf_timer m W h t Ht) as (? & ? & ?). split; [auto|]. split; [|auto].
    rewrite Hcnt. destruct (Nat.eqb_spec p h); [contradiction|lia].
  - apply NoDup_map_filter, W.
  - intros r' k' e (id & c' & Hin & Hc' & Hk).
    destruct (Hheap r' c' Hc') as (c & Hc & E).
    assert (R : registered_entry m r' k' e /\ (r' = r -> k' <> k)).
    { destruct (Nat.eqb_spec r' r) as [->|Hne]; subst.
      - unfold drop_entry in Hk. simpl in Hk. apply map_delete_In in Hk as [Hk Hne]. simpl in Hne.
        split; [exists id, c; auto|auto].
      - split; [exists id, c; auto|intros; contradiction]. }
    destruct R as [R Hnk]. destruct (wf_entry m W r' k' e R) as [Heq T']. split; [exact Heq|].
    apply filter_In. split; [exact T'|]. apply negb_true_iff, Nat.eqb_neq. simpl. intros Hp.
    rewrite <- Hp in T'.
    pose proof (NoDup_map_inj fst _ _ _ (wf_timer_handles m W) T T' eq_refl) as E'.
    inversion E'; subst. apply Hnk; reflexivity.
  - intros q. rewrite Hcnt. pose proof (wf_once m W q).
    destruct (Nat.eqb_spec p q); subst; lia.
  - intros q a' s' H. apply in_app_or in H as [H|[H|[]]]; [exact (wf_calls_fresh m W _ _ _ H)|].
    inversion H; subst. exact Hlt.
  - intros q Hq. rewrite Hcnt. destruct (Nat.eqb_spec p q) as [->|Hne].
    + left. lia.
    + destruct (wf_settled_or_armed m W q Hq) as [H1|[t Ht]]; [left; lia|right].
      exists t. apply filter_In. split; [exact Ht|]. simpl. apply negb_true_iff, Nat.eqb_neq. auto.
  - intros q a' s' H. apply in_app_or in H as [H|[H|[]]]; [exact (wf_calls_ok m W _ _ _ H)|].
    inversion H; subst. exact Hok.
Qed.

Lemma find_pending_Some h l k r e :
  find_pending h l k = Some (r, e) ->
  exists id c, In (id, r) l /\ nth_error h r = Some c /\ map_get (pendingRequests c) k = Some e.
Proof.
  induction l as [|[id r0] t IH]; simpl; [discriminate|].
  destruct (nth_error h r0) as [c|] eqn:Hc.
  - destruct (map_get (pendingRequests c) k) as [e0|] eqn:Hk.
    + intros H; inversion H; subst. exists id, c. auto.
    + intros H. destruct (IH H) as (id' & c' & ? & ? & ?). exists id', c'. auto.
  - intros H. destruct (IH H) as (id' & c' & ? & ? & ?). exists id', c'. auto.
Qed.

Lemma find_pending_None h l k :
  find_pending h l k = None ->
  forall id r c, In (id, r) l -> nth_error h r = Some c -> map_get (pendingRequests c) k = None.
Proof.
  induction l as [|[id0 r0] t IH]; simpl; [tauto|].
  destruct (nth_error h r0) as [c0|] eqn:Hc0.
  - destruct (map_get (pendingRequests c0) k) as [e0|] eqn:Hk; [discriminate|].
    intros H id r c [E|Hin] Hc; [inversion E; subst; congruence|eauto].
  - intros H id r c [E|Hin] Hc; [inversion E; subst; congruence|eauto].
Qed.

Lemma wf_handleResult res m : wf m -> wf (handleResult res m).
Proof.
  intros W. unfold handleResult.
  destruct (find_pending (heap m) (executors m) (res_id res)) as [[r e]|] eqn:F; [|exact W].
  destruct (find_pending_Some _ _ _ _ _ F) as (id & c & Hin & Hc & Hk).
  destruct (wf_entry m W r (res_id res) e) as [Heq T].
  { exists id, c. split; [exact Hin|]. split; [exact Hc|]. apply map_get_In. exact Hk. }
  rewrite Heq. apply (wf_settle m r (res_id res)); [exact W|exact T|exact I].
Qed.

Lemma find_timer_In l h t : find_timer l h = Some t -> In (h, t) l.
Proof.
  induction l as [|[h' t'] l' IH]; simpl; [discriminate|].
  destruct (Nat.eqb_spec h h') as [->|]; intros H; [inversion H; auto|auto].
Qed.

Lemma wf_fire_timer h m : wf m -> wf (fire_timer h m).
Proof.
  intros W. unfold fire_timer.
  destruct (find_timer (timers m) h) as [t|] eqn:F; [|exact W].
  apply find_timer_In in F. destruct (wf_timer m W _ _ F) as (Hp & _ & _).
  destruct t as [r k p]. simpl in *. subst h.
  apply (wf_settle m r k p); [exact W|exact F|reflexivity].
Qed.

(** ** [execute] *)

Lemma NoDup_snoc {A} (l : list A) x : NoDup l -> ~ In x l -> NoDup (l ++ [x]).
Proof.
  induction l as [|y t IH]; simpl; intros Hnd Hn; [constructor; [tauto|constructor]|].
  inversion Hnd; subst. constructor; [|apply IH; auto].
  intros Hin. apply in_app_or in Hin as [Hin|[<-|[]]]; auto.
Qed.

Lemma count_calls_fresh m p : wf m -> next_handle m <= p -> count_calls m p = 0.
Proof.
  intros W Hle. destruct (count_calls m p) eqn:E; [reflexivity|exfalso].
  assert (Hp : 0 < count_calls m p) by lia. unfold count_calls in Hp.
  apply (filter_count_pos (fun c : nat * Arm * Settlement => fst (fst c))) in Hp
    as ([[q a] s] & Hin & Hq). simpl in Hq. subst q.
  apply (wf_calls_fresh m W) in Hin. lia.
Qed.

Definition arm_request (m : Manager) (r : nat) (id : string) : Manager :=
  let p := next_handle m in
  let m1 := set_next m (S p) in
  let m2 := set_timers m1 (timers m1 ++ [(p, mkTask r id p)]) in
  update_conn m2 r (fun c => with_pending c (map_set (pendingRequests c) id (mkPending p p))).

Lemma wf_arm_request m r id : wf m -> wf (arm_request m r id).
Proof.
  intros W. set (p := next_handle m).
  set (M := arm_request m r id).
  set (f := fun c => with_pending c (map_set (pendingRequests c) id (mkPending p p))).
  assert (Hex : executors M = executors m) by reflexivity.
  assert (Hdf : defaultExecutorId M = defaultExecutorId m) by reflexivity.
  assert (Hhp : heap M = list_update (heap m) r f) by reflexivity.
  assert (Htm : timers M = timers m ++ [(p, mkTask r id p)]) by reflexivity.
  assert (Hnx : next_handle M = S p) by reflexivity.
  assert (Hcl : calls M = calls m) by reflexivity.
  assert (Hcnt : forall q, count_calls M q = count_calls m q)
    by (intros q; unfold count_calls; rewrite Hcl; reflexivity).
  assert (Hheap : forall r' c', nth_error (list_update (heap m) r f) r' = Some c' ->
            exists c, nth_error (heap m) r' = Some c /\
                      (if Nat.eqb r' r then c' = f c else c' = c)).
  { intros r' c' H. rewrite nth_error_list_update in H.
    destruct (Nat.eqb r' r); [|eauto].
    destruct (nth_error (heap m) r') as [c|]; simpl in H; [|discriminate].
    inversion H; subst. eauto. }
  clearbody M.
  constructor; unfold registered_entry; rewrite ?Hex, ?Hdf, ?Hhp, ?Htm, ?Hnx, ?Hcl; try apply W.
  - rewrite length_list_update. apply W.
  - intros r' c' H. destruct (Hheap r' c' H) as (c & Hc & E).
    destruct (Nat.eqb r' r); subst.
    + unfold f. apply map_set_NoDup_keys. eapply (wf_pending_keys m W); eauto.
    + eapply (wf_pending_keys m W); eauto.
  - intros h t Ht. rewrite Hcnt. apply in_app_or in Ht as [Ht|[Ht|[]]].
    + destruct (wf_timer m W h t Ht) as (? & ? & ?). split; [auto|]. split; [auto|lia].
    + inversion Ht; subst. split; [reflexivity|]. split; [|lia].
      apply count_calls_fresh; [exact W|lia].
  - rewrite map_app. apply NoDup_snoc; [apply W|]. simpl. intros Hin.
    apply in_map_iff in Hin as ([h t] & Hh & Hin). simpl in Hh. subst h.
    destruct (wf_timer m W _ _ Hin) as (_ & _ & Hlt). unfold p in Hlt. lia.
  - intros r' k e (id' & c' & Hin & Hc' & Hk).
    destruct (Hheap r' c' Hc') as (c & Hc & E).
    destruct (Nat.eqb_spec r' r) as [->|Hne]; subst.
    + unfold f in Hk. simpl in Hk.
      destruct (map_set_In _ _ _ _ _ (wf_pending_keys m W r c Hc) Hk) as [[-> ->]|[Hne Hk']].
      * simpl. split; [reflexivity|]. apply in_or_app. right. left. reflexivity.
      * destruct (wf_entry m W r k e) as [? ?]; [exists id', c; auto|].
        split; [auto|]. apply in_or_app. left. auto.
    + destruct (wf_entry m W r' k e) as [? ?]; [exists id', c; auto|].
      split; [auto|]. apply in_or_app. left. auto.
  - intros q. rewrite Hcnt. apply W.
  - intros q a s H. apply (wf_calls_fresh m W) in H. lia.
  - intros q Hq. rewrite Hcnt. destruct (Nat.eq_dec q p) as [->|Hne].
    + right. exists (mkTask r id p). apply in_or_app. right. left. reflexivity.
    + destruct (wf_settled_or_armed m W q) as [H1|[t Ht]]; [unfold p in *; lia|left; exact H1|].
      right. exists t. apply in_or_app. left. exact Ht.
Qed.

Lemma getExecutor_Some target m r c :
  getExecutor target m = Some (r, c) -> exists s, lookup_exec m s = Some (r, c).
Proof.
  unfold getExecutor. destruct (if truthy target then target else defaultExecutorId m) as [s|];
    [|discriminate].
  destruct (truthy (Some s)); [eauto|discriminate].
Qed.

Lemma execute_unfold a ps target now sfx err sat m :
  execute a ps target now sfx err sat m =
  match getExecutor target m with
  | None => (Returned (failure "" (if truthy target
                                   then match target with
                                        | Some s => ("Executor not found: " ++ s)%string
                                        | None => "No executor connected"%string
                                        end
                                   else "No executor connected"%string)), m)
  | Some (r, conn) =>
      let id := request_id now sfx in
      let p := next_handle m in
      let m3 := arm_request m r id in
      match err with
      | None => (Awaiting p, update_conn (send m3 (ws conn) (OExecute id a ps)) r
                                         (fun c => with_lastActive c sat))
      | Some e => (Awaiting p, invoke (update_conn (clearTimeout m3 p) r (drop_entry id)) p ArmSendFail
                                      (Resolve (failure id ("Failed to send command: " ++ e)%string)))
      end
  end.
Proof.
  unfold execute. destruct (getExecutor target m) as [[r conn]|]; [|reflexivity].
  destruct err; reflexivity.
Qed.

Lemma wf_execute a ps target now sfx err sat m : wf m -> wf (snd (execute a ps target now sfx err sat m)).
Proof.
  intros W. rewrite execute_unfold.
  destruct (getExecutor target m) as [[r conn]|] eqn:G; [|exact W].
  pose proof (wf_arm_request m r (request_id now sfx) W) as W3.
  destruct err as [e|]; simpl.
  - apply (wf_settle _ r (request_id now sfx) (next_handle m)); [exact W3| |].
    + apply in_or_app. right. left. reflexivity.
    + simpl. split; [reflexivity|]. eexists. reflexivity.
  - apply update_conn_frame; [reflexivity|]. apply (wf_frame (arm_request m r (request_id now sfx)));
      cbn; eauto.
Qed.

(** ** Every reachable state is well formed *)

Lemma wf_step e m : wf m -> wf (step e m).
Proof.
  intros W. destruct e as [w msg now|w|id|id|a ps t now sfx err sat|h|now]; simpl.
  - destruct msg as [i|res|id mt|id]; simpl.
    + apply wf_register, W.
    + apply wf_handleResult, W.
    + apply wf_handleMessage_state, W.
    + apply wf_pong, W.
  - unfold unregisterByWs. destruct (find_by_ws (heap m) w (executors m)); [apply wf_unregister|]; exact W.
  - apply wf_unregister, W.
  - apply wf_setDefault, W.
  - apply wf_execute, W.
  - apply wf_fire_timer, W.
  - apply wf_checkConnections, W.
Qed.

Lemma reachable_wf m : reachable m -> wf m.
Proof. induction 1; [exact wf_empty|apply wf_step; assumption]. Qed.

(** ** Facts used by the claims *)

Lemma reachable_run es m : reachable m -> reachable (run es m).
Proof.
  unfold run. revert m. induction es as [|e t IH]; simpl; intros m H; [exact H|].
  apply IH. constructor. exact H.
Qed.

Fixpoint no_underscore (s : string) : Prop :=
  match s with
  | EmptyString => True
  | String a t => a <> "_"%char /\ no_underscore t
  end.

Lemma no_underscore_uint d : no_underscore (NilEmpty.string_of_uint d).
Proof. induction d; simpl; auto; split; auto; discriminate. Qed.

Lemma no_underscore_Z z : no_underscore (string_of_Z z).
Proof.
  unfold string_of_Z, NilEmpty.string_of_int. destruct (Z.to_int z); simpl.
  - apply no_underscore_uint.
  - split; [discriminate|apply no_underscore_uint].
Qed.

Lemma split_underscore a b x y :
  no_underscore a -> no_underscore b ->
  (a ++ String "_" x)%string = (b ++ String "_" y)%string -> a = b /\ x = y.
Proof.
  revert b. induction a as [|ca a IH]; intros [|cb b]; simpl.
  - intros _ _ H. inversion H. auto.
  - intros _ [Hcb _] H. inversion H. congruence.
  - intros [Hca _] _ H. inversion H. congruence.
  - intros [_ Ha] [_ Hb] H. inversion H; subst.
    destruct (IH b Ha Hb H2) as [-> ->]. auto.
Qed.

Lemma string_of_Z_inj z1 z2 : string_of_Z z1 = string_of_Z z2 -> z1 = z2.
Proof.
  unfold string_of_Z. intros H.
  assert (E : Z.to_int z1 = Z.to_int z2).
  { pose proof (NilEmpty.isi (Z.to_int z1)) as H1. pose proof (NilEmpty.isi (Z.to_int z2)) as H2.
    rewrite H in H1. congruence. }
  rewrite <- (DecimalZ.of_to z1), <- (DecimalZ.of_to z2), E. reflexivity.
Qed.

Lemma find_timer_None l h : (forall t, ~ In (h, t) l) -> find_timer l h = None.
Proof.
  induction l as [|[h' t'] l' IH]; simpl; intros H; [reflexivity|].
  destruct (Nat.eqb_spec h h') as [->|]; [exfalso; eapply H; left; reflexivity|].
  apply IH. intros t Ht. eapply H. right. exact Ht.
Qed.

Lemma map_get_delete_same {V} (l : list (string * V)) k : map_get (map_delete l k) k = None.
Proof.
  unfold map_delete. induction l as [|[k' v] t IH]; simpl; [reflexivity|].
  destruct (String.eqb_spec k k') as [->|Hne]; simpl; [exact IH|].
  destruct (String.eqb_spec k k'); [contradiction|exact IH].
Qed.

Lemma find_pending_None_intro h l k :
  (forall id r c, In (id, r) l -> nth_error h r = Some c -> map_get (pendingRequests c) k = None) ->
  find_pending h l k = None.
Proof.
  induction l as [|[id r] t IH]; simpl; intros H; [reflexivity|].
  destruct (nth_error h r) as [c|] eqn:Hc.
  - rewrite (H id r c (or_introl eq_refl) Hc). apply IH. intros; eauto.
  - apply IH. intros; eauto.
Qed.



Lemma stale_pings_In now h l w o :
  In (w, o) (stale_pings now h l) <->
  o = OControlPing /\ exists id r c, In (id, r) l /\ nth_error h r = Some c /\ ws c = w /\
                                     (now - lastActiveAt c > HEARTBEAT_TIMEOUT)%Z.
Proof.
  induction l as [|[id r] t IH]; simpl.
  - split; [tauto|]. intros (_ & id & r & c & [] & _).
  - destruct (nth_error h r) as [c|] eqn:Hc.
    + destruct (Z.ltb_spec HEARTBEAT_TIMEOUT (now - lastActiveAt c)) as [Hlt|Hge].
      * simpl. rewrite IH. split.
        -- intros [E|(Ho & id' & r' & c' & ? & ? & ? & ?)].
           ++ inversion E; subst. split; [reflexivity|]. exists id, r, c. repeat split; auto; lia.
           ++ split; [exact Ho|]. exists id', r', c'. auto.
        -- intros (Ho & id' & r' & c' & [E|Hin] & Hc' & Hw & Hs).
           ++ inversion E; subst. left. rewrite Hc in Hc'. inversion Hc'; subst. reflexivity.
           ++ right. split; [exact Ho|]. exists id', r', c'. auto.
      * rewrite IH. split.
        -- intros (Ho & id' & r' & c' & ? & ? & ? & ?). split; [exact Ho|]. exists id', r', c'. auto.
        -- intros (Ho & id' & r' & c' & [E|Hin] & Hc' & Hw & Hs).
           ++ inversion E; subst. rewrite Hc in Hc'. inversion Hc'; subst. lia.
           ++ split; [exact Ho|]. exists id', r', c'. auto.
    + rewrite IH. split.
      * intros (Ho & id' & r' & c' & ? & ? & ? & ?). split; [exact Ho|]. exists id', r', c'. auto.
      * intros (Ho & id' & r' & c' & [E|Hin] & Hc' & Hw & Hs).
        -- inversion E; subst. congruence.
        -- split; [exact Ho|]. exists id', r', c'. auto.
Qed.

Lemma register_executors w i now m :
  executors (register w i now m) = map_set (executors m) (executorId i) (length (heap m)) /\
  heap (register w i now m) = heap m ++ [mkConn w i now now []] /\
  calls (register w i now m) = calls m /\ timers (register w i now m) = timers m.
Proof.
  unfold register, register_tail. destruct (lookup_exec m (executorId i)) as [[r c]|];
    cbn; destruct (negb (truthy (defaultExecutorId m))); cbn; auto.
Qed.

Lemma list_update_compose {A} (l : list A) r f g :
  list_update (list_update l r f) r g = list_update l r (fun x => g (f x)).
Proof. revert r. induction l; intros [|r]; simpl; f_equal; auto. Qed.

Lemma list_update_id {A} (l : list A) r f x : nth_error l r = Some x -> f x = x -> list_update l r f = l.
Proof.
  revert r. induction l as [|y t IH]; intros [|r]; simpl; try discriminate.
  - intros H Hf. inversion H; subst. rewrite Hf. reflexivity.
  - intros H Hf. f_equal. eauto.
Qed.

Lemma filter_all_true {A} (g : A -> bool) l : (forall x, In x l -> g x = true) -> filter g l = l.
Proof.
  induction l as [|x t IH]; simpl; intros H; [reflexivity|].
  rewrite (H x (or_introl eq_refl)). f_equal. apply IH. auto.
Qed.

(** ** Facts used by the further properties *)

(** ** Helper facts *)
Lemma map_get_set_same {V} (l : list (string * V)) k v : map_get (map_set l k v) k = Some v.
Proof.
  induction l as [|[k' v'] t IH]; simpl; [rewrite String.eqb_refl; reflexivity|].
  destruct (String.eqb_spec k k') as [->|Hne]; simpl.
  - rewrite String.eqb_refl. reflexivity.
  - destruct (String.eqb_spec k k'); [contradiction|exact IH].
Qed.
Lemma map_keys_set {V} (l : list (string * V)) k v :
  map_keys (map_set l k v) =
  match map_get l k with Some _ => map_keys l | None => map_keys l ++ [k] end.
Proof.
  unfold map_keys. induction l as [|[k' v'] t IH]; simpl; [reflexivity|].
  destruct (String.eqb_spec k k') as [->|Hne]; simpl; [reflexivity|].
  rewrite IH. destruct (map_get t k); reflexivity.
Qed.
Lemma map_keys_delete {V} (l : list (string * V)) k :
  map_keys (map_delete l k) = filter (fun k' => negb (String.eqb k k')) (map_keys l).
Proof.
  unfold map_keys, map_delete. induction l as [|[k' v'] t IH]; simpl; [reflexivity|].
  destruct (String.eqb k k'); simpl; rewrite IH; reflexivity.
Qed.
Lemma map_get_app {V} (l1 l2 : list (string * V)) k :
  map_get (l1 ++ l2) k = match map_get l1 k with Some v => Some v | None => map_get l2 k end.
Proof.
  induction l1 as [|[k' v'] t IH]; simpl; [reflexivity|].
  destruct (String.eqb k k'); [reflexivity|exact IH].
Qed.
Lemma refs_inj (l : list (string * nat)) a b r :
  NoDup (map snd l) -> In (a, r) l -> In (b, r) l -> a = b.
Proof.
  intros Hnd Ha Hb. pose proof (NoDup_map_inj snd l (a, r) (b, r) Hnd Ha Hb eq_refl) as E.
  inversion E. reflexivity.
Qed.
Lemma list_update_ext_at {A} (l : list A) r f g x :
  nth_error l r = Some x -> f x = g x -> list_update l r f = list_update l r g.
Proof.
  revert r. induction l as [|y t IH]; intros [|r]; simpl; try discriminate.
  - intros H Hf. inversion H; subst. rewrite Hf. reflexivity.
  - intros H Hf. f_equal. eauto.
Qed.
(** [update_conn] changes the connection of [r] only. *)
Lemma lookup_update_same m id r c f :
  lookup_exec m id = Some (r, c) -> lookup_exec (update_conn m r f) id = Some (r, f c).
Proof.
  intros L. destruct (lookup_exec_Some _ _ _ _ L) as [Hg Hc].
  unfold lookup_exec, conn_at. cbn. rewrite Hg, nth_error_list_update, Nat.eqb_refl, Hc.
  reflexivity.
Qed.
Lemma lookup_update_other m id id' r c f :
  wf m -> lookup_exec m id = Some (r, c) -> id' <> id ->
  lookup_exec (update_conn m r f) id' = lookup_exec m id'.
Proof.
  intros W L Hne. destruct (lookup_exec_Some _ _ _ _ L) as [Hg _].
  unfold lookup_exec, conn_at. cbn.
  destruct (map_get (executors m) id') as [r'|] eqn:Hg'; [|reflexivity].
  rewrite nth_error_list_update. destruct (Nat.eqb_spec r' r) as [->|]; [|reflexivity].
  exfalso. apply Hne. apply (refs_inj (executors m) id' id r (wf_refs m W));
    apply map_get_In; assumption.
Qed.
(** ** Every registered connection carries the executorId it is registered under *)
Definition ids_match (m : Manager) : Prop :=
  forall id r c, In (id, r) (executors m) -> nth_error (heap m) r = Some c -> executorId (info c) = id.
(** [m'] has the registry of [m], and each connection object of [m'] is one
    of [m] with the same executorId. *)
Definition same_ids (m m' : Manager) : Prop :=
  executors m' = executors m /\
  forall r c', nth_error (heap m') r = Some c' ->
    exists c, nth_error (heap m) r = Some c /\ executorId (info c') = executorId (info c).
Lemma same_ids_eq m m' : executors m' = executors m -> heap m' = heap m -> same_ids m m'.
Proof. intros He Hh. split; [exact He|]. intros r c' H. rewrite Hh in H. eauto. Qed.
Lemma same_ids_trans m1 m2 m3 : same_ids m1 m2 -> same_ids m2 m3 -> same_ids m1 m3.
Proof.
  intros [E12 H12] [E23 H23]. split; [congruence|].
  intros r c3 H. destruct (H23 r c3 H) as (c2 & H2 & E2). destruct (H12 r c2 H2) as (c1 & H1 & E1).
  exists c1. split; [exact H1|congruence].
Qed.
Lemma same_ids_update m r f :
  (forall c, executorId (info (f c)) = executorId (info c)) -> same_ids m (update_conn m r f).
Proof.
  intros Hf. split; [reflexivity|]. intros r' c' H. cbn in H. rewrite nth_error_list_update in H.
  destruct (Nat.eqb r' r); [|eauto].
  destruct (nth_error (heap m) r') as [c|]; simpl in H; [|discriminate].
  inversion H; subst. eauto.
Qed.
Lemma ids_match_same m m' : same_ids m m' -> ids_match m -> ids_match m'.
Proof.
  intros [He Hh] I id r c' Hin Hc'. destruct (Hh r c' Hc') as (c & Hc & E).
  rewrite E. apply (I id r c); [rewrite <- He; exact Hin|exact Hc].
Qed.
Ltac same_ids_chain :=
  repeat first
    [ apply same_ids_update; reflexivity
    | eapply same_ids_trans; [|apply same_ids_update; reflexivity]
    | apply same_ids_eq; reflexivity
    | eapply same_ids_trans; [|apply same_ids_eq; reflexivity] ].
Lemma ids_match_unregister id m : ids_match m -> ids_match (unregister id m).
Proof.
  intros I. destruct (lookup_exec m id) as [[r c]|] eqn:L; [|unfold unregister; rewrite L; exact I].
  rewrite (unregister_spec _ _ _ _ L). intros id' r' c' Hin Hc. cbn in Hin, Hc.
  apply map_delete_In in Hin as [Hin _]. exact (I id' r' c' Hin Hc).
Qed.
Lemma ids_match_register w i now m : wf m -> ids_match m -> ids_match (register w i now m).
Proof.
  intros W I. destruct (register_executors w i now m) as (He & Hh & _).
  intros id r c Hin Hc. rewrite He in Hin. rewrite Hh in Hc.
  destruct (map_set_In _ _ _ _ _ (wf_keys m W) Hin) as [[-> ->]|[_ Hin']].
  - rewrite nth_error_app2, Nat.sub_diag in Hc by lia. simpl in Hc. inversion Hc. reflexivity.
  - rewrite nth_error_app1 in Hc by exact (wf_live m W _ _ Hin'). exact (I id r c Hin' Hc).
Qed.
Lemma ids_match_step e m : wf m -> ids_match m -> ids_match (step e m).
Proof.
  intros W I. destruct e as [w msg now|w|id|id|a ps t now sfx err sat|h|now]; simpl.
  - destruct msg as [i|res|id mt|id]; simpl.
    + apply ids_match_register; assumption.
    + apply (ids_match_same m); [|exact I]. unfold handleResult.
      destruct (find_pending (heap m) (executors m) (res_id res)) as [[r p]|];
        [same_ids_chain|apply same_ids_eq; reflexivity].
    + apply (ids_match_same m); [|exact I]. unfold updateState.
      destruct (lookup_exec m id) as [[r c]|]; [same_ids_chain|apply same_ids_eq; reflexivity].
    + apply (ids_match_same m); [|exact I].
      destruct (lookup_exec m id) as [[r c]|]; [same_ids_chain|apply same_ids_eq; reflexivity].
  - unfold unregisterByWs. destruct (find_by_ws (heap m) w (executors m));
      [apply ids_match_unregister|]; exact I.
  - apply ids_match_unregister, I.
  - apply (ids_match_same m); [|exact I]. unfold setDefault.
    destruct (map_get (executors m) id); apply same_ids_eq; reflexivity.
  - apply (ids_match_same m); [|exact I]. rewrite execute_unfold.
    destruct (getExecutor t m) as [[r conn]|]; [|apply same_ids_eq; reflexivity].
    destruct err; simpl; unfold arm_request; same_ids_chain.
  - apply (ids_match_same m); [|exact I]. unfold fire_timer.
    destruct (find_timer (timers m) h); [same_ids_chain|apply same_ids_eq; reflexivity].
  - apply (ids_match_same m); [|exact I]. rewrite checkConnections_spec. apply same_ids_eq; reflexivity.
Qed.
Lemma reachable_ids_match m : reachable m -> ids_match m.
Proof.
  induction 1 as [|e m R IH].
  - intros id r c [].
  - apply ids_match_step; [apply reachable_wf; exact R|exact IH].
Qed.
Lemma register_default w i now m :
  defaultExecutorId (register w i now m) =
  if truthy (defaultExecutorId m) then defaultExecutorId m else Some (executorId i).
Proof.
  unfold register. destruct (lookup_exec m (executorId i)) as [[r c]|]; cbn;
    destruct (truthy (defaultExecutorId m)); reflexivity.
Qed.
Lemma register_closes w i now m :
  closes (register w i now m) =
  closes m ++ match lookup_exec m (executorId i) with Some (_, c) => [ws c] | None => [] end.
Proof.
  unfold register. destruct (lookup_exec m (executorId i)) as [[r c]|]; cbn;
    destruct (negb (truthy (defaultExecutorId m))); cbn; rewrite ?app_nil_r; reflexivity.
Qed.
Lemma find_pending_unique h l k id r c e :
  (forall id' r' c', In (id', r') l -> nth_error h r' = Some c' ->
                     map_get (pendingRequests c') k <> None -> r' = r) ->
  In (id, r) l -> nth_error h r = Some c -> map_get (pendingRequests c) k = Some e ->
  find_pending h l k = Some (r, e).
Proof.
  induction l as [|[id0 r0] t IH]; simpl; [tauto|]. intros Hu Hin Hc Hk.
  destruct (nth_error h r0) as [c0|] eqn:Hc0.
  - destruct (map_get (pendingRequests c0) k) as [e0|] eqn:Hk0.
    + assert (r0 = r) as -> by (apply (Hu id0 r0 c0 (or_introl eq_refl) Hc0); congruence).
      rewrite Hc in Hc0. inversion Hc0; subst. rewrite Hk in Hk0. inversion Hk0; subst. reflexivity.
    + destruct Hin as [E|Hin]; [inversion E; subst; congruence|].
      apply IH; auto. intros; eapply Hu; eauto.
  - destruct Hin as [E|Hin]; [inversion E; subst; congruence|].
    apply IH; auto. intros; eapply Hu; eauto.
Qed.
(** ** Which operations touch the registry, the transports and the closes *)
Lemma register_traffic w i now m : traffic (register w i now m) = traffic m.
Proof.
  unfold register. destruct (lookup_exec m (executorId i)) as [[r c]|]; cbn;
    destruct (negb (truthy (defaultExecutorId m))); reflexivity.
Qed.
Lemma handleResult_frame res m :
  executors (handleResult res m) = executors m /\ defaultExecutorId (handleResult res m) = defaultExecutorId m /\
  traffic (handleResult res m) = traffic m /\ closes (handleResult res m) = closes m.
Proof.
  unfold handleResult. destruct (find_pending (heap m) (executors m) (res_id res)) as [[r p]|];
    repeat split.
Qed.
Lemma fire_timer_frame h m :
  executors (fire_timer h m) = executors m /\ defaultExecutorId (fire_timer h m) = defaultExecutorId m /\
  traffic (fire_timer h m) = traffic m /\ closes (fire_timer h m) = closes m.
Proof. unfold fire_timer. destruct (find_timer (timers m) h); repeat split. Qed.
Lemma updateState_frame id mt now m :
  executors (updateState id mt now m) = executors m /\
  defaultExecutorId (updateState id mt now m) = defaultExecutorId m /\
  traffic (updateState id mt now m) = traffic m /\ closes (updateState id mt now m) = closes m.
Proof. unfold updateState. destruct (lookup_exec m id) as [[r c]|]; repeat split. Qed.
Lemma pong_frame w id now m :
  executors (handleMessage w (MPong id) now m) = executors m /\
  defaultExecutorId (handleMessage w (MPong id) now m) = defaultExecutorId m /\
  traffic (handleMessage w (MPong id) now m) = traffic m /\
  closes (handleMessage w (MPong id) now m) = closes m.
Proof. simpl. destruct (lookup_exec m id) as [[r c]|]; repeat split. Qed.
Lemma unregister_frame id m :
  traffic (unregister id m) = traffic m /\ closes (unregister id m) = closes m.
Proof.
  destruct (lookup_exec m id) as [[r c]|] eqn:L.
  - rewrite (unregister_spec _ _ _ _ L). split; reflexivity.
  - unfold unregister. rewrite L. split; reflexivity.
Qed.
Lemma unregisterByWs_frame w m :
  traffic (unregisterByWs w m) = traffic m /\ closes (unregisterByWs w m) = closes m.
Proof.
  unfold unregisterByWs. destruct (find_by_ws (heap m) w (executors m)); [apply unregister_frame|].
  split; reflexivity.
Qed.
Lemma setDefault_frame id m :
  executors (snd (setDefault id m)) = executors m /\ traffic (snd (setDefault id m)) = traffic m /\
  closes (snd (setDefault id m)) = closes m.
Proof. unfold setDefault. destruct (map_get (executors m) id); repeat split. Qed.
Lemma execute_frame a ps t now sfx err sat m :
  let m' := snd (execute a ps t now sfx err sat m) in
  executors m' = executors m /\ defaultExecutorId m' = defaultExecutorId m /\ closes m' = closes m /\
  (err <> None -> traffic m' = traffic m).
Proof.
  cbv zeta. rewrite execute_unfold. destruct (getExecutor t m) as [[r conn]|].
  - destruct err as [e|]; simpl; [repeat split|]. repeat split. intros H; contradiction.
  - repeat split.
Qed.
Lemma find_timer_NoDup l h t : NoDup (map fst l) -> In (h, t) l -> find_timer l h = Some t.
Proof.
  induction l as [|[h' t'] l' IH]; simpl; [tauto|]. intros Hnd [E|Hin]; inversion Hnd; subst.
  - inversion E; subst. rewrite Nat.eqb_refl. reflexivity.
  - destruct (Nat.eqb_spec h h') as [->|]; [|auto].
    exfalso. apply H1. apply (in_map fst) in Hin. exact Hin.
Qed.
Lemma find_pending_first h pre id r c post k e :
  (forall id' r' c', In (id', r') pre -> nth_error h r' = Some c' -> map_get (pendingRequests c') k = None) ->
  nth_error h r = Some c -> map_get (pendingRequests c) k = Some e ->
  find_pending h (pre ++ (id, r) :: post) k = Some (r, e).
Proof.
  induction pre as [|[id0 r0] t IH]; simpl; intros Hpre Hc Hk.
  - rewrite Hc, Hk. reflexivity.
  - destruct (nth_error h r0) as [c0|] eqn:Hc0.
    + rewrite (Hpre id0 r0 c0 (or_introl eq_refl) Hc0). apply IH; auto. intros; eauto.
    + apply IH; auto. intros; eauto.
Qed.

Lemma map_delete_set_same {V} (l : list (string * V)) k v : map_delete (map_set l k v) k = map_delete l k.
Proof.
  induction l as [|[k' v'] t IH]; simpl.
  - unfold map_delete. simpl. rewrite String.eqb_refl. reflexivity.
  - destruct (String.eqb k k') eqn:E; unfold map_delete in *; simpl; rewrite E; simpl;
      [reflexivity|rewrite IH; reflexivity].
Qed.

(** After a failed send, [clearTimeout] removes exactly the timer that
    [execute] armed. *)
Lemma send_fail_timers m r id :
  wf m ->
  filter (fun t0 => negb (Nat.eqb (next_handle m) (fst t0)))
         (timers m ++ [(next_handle m, mkTask r id (next_handle m))]) = timers m.
Proof.
  intros W. rewrite filter_app. simpl. rewrite Nat.eqb_refl. simpl. rewrite app_nil_r.
  apply filter_all_true. intros [h tk] Hin. simpl.
  destruct (wf_timer m W _ _ Hin) as (_ & _ & Hlt).
  apply negb_true_iff, Nat.eqb_neq. lia.
Qed.

(** ** Which promises a step can settle *)

(** Promise [p] belongs to a pending entry of a registered connection. *)
Definition holds (m : Manager) (p : nat) : Prop :=
  exists id r c kv, In (id, r) (executors m) /\ nth_error (heap m) r = Some c /\
                    In kv (pendingRequests c) /\ pending_promise (snd kv) = p.

Lemma holds_update m m' r f q p :
  executors m' = executors m -> heap m' = list_update (heap m) r f ->
  (forall c kv, In kv (pendingRequests (f c)) -> In kv (pendingRequests c) \/ pending_promise (snd kv) = q) ->
  holds m' p -> holds m p \/ p = q.
Proof.
  intros He Hh Hf (id & r' & c' & kv & Hin & Hc & Hkv & Hp).
  rewrite He in Hin. rewrite Hh, nth_error_list_update in Hc.
  destruct (Nat.eqb r' r).
  - destruct (nth_error (heap m) r') as [c|] eqn:E; simpl in Hc; [|discriminate].
    injection Hc as <-. destruct (Hf c kv Hkv) as [Hk|Hk]; [|right; congruence].
    left. exists id, r', c, kv. auto.
  - left. exists id, r', c', kv. auto.
Qed.

Lemma holds_update_incl m m' r f p :
  executors m' = executors m -> heap m' = list_update (heap m) r f ->
  (forall c kv, In kv (pendingRequests (f c)) -> In kv (pendingRequests c)) ->
  holds m' p -> holds m p.
Proof.
  intros He Hh Hf (id & r' & c' & kv & Hin & Hc & Hkv & Hp).
  rewrite He in Hin. rewrite Hh, nth_error_list_update in Hc.
  destruct (Nat.eqb r' r).
  - destruct (nth_error (heap m) r') as [c|] eqn:E; simpl in Hc; [|discriminate].
    injection Hc as <-. exists id, r', c, kv. auto.
  - exists id, r', c', kv. auto.
Qed.

Lemma holds_same m m' p :
  executors m' = executors m -> heap m' = heap m -> holds m' p -> holds m p.
Proof.
  intros He Hh (id & r & c & kv & H1 & H2 & H3 & H4). rewrite He in H1. rewrite Hh in H2.
  exists id, r, c, kv. auto.
Qed.

Lemma map_set_In_or {V} (l : list (string * V)) k v x : In x (map_set l k v) -> In x l \/ x = (k, v).
Proof.
  induction l as [|[k' v'] t IH]; simpl.
  - intros [H|[]]. auto.
  - destruct (String.eqb_spec k k') as [->|Hne]; simpl; intros [H|H]; subst; auto.
    destruct (IH H); auto.
Qed.

Lemma holds_unregister id m p : holds (unregister id m) p -> holds m p.
Proof.
  destruct (lookup_exec m id) as [[r c]|] eqn:L.
  - rewrite (unregister_spec _ _ _ _ L). cbv zeta. intros (id' & r' & c' & kv & Hin & Hc & Hkv & Hp).
    simpl in Hin, Hc. apply map_delete_In in Hin as [Hin _]. exists id', r', c', kv. auto.
  - unfold unregister. rewrite L. auto.
Qed.

Lemma calls_unregister id m x :
  In x (calls (unregister id m)) -> In x (calls m) \/ holds m (fst (fst x)).
Proof.
  destruct (lookup_exec m id) as [[r c]|] eqn:L.
  - rewrite (unregister_spec _ _ _ _ L). cbv zeta. simpl. intros Hx.
    apply in_app_or in Hx as [Hx|Hx]; [auto|right].
    unfold loss_calls in Hx. apply in_map_iff in Hx as (kv & <- & Hkv).
    destruct (lookup_exec_Some _ _ _ _ L) as [Hg Hc].
    exists id, r, c, kv. split; [apply map_get_In; exact Hg|]. auto.
  - unfold unregister. rewrite L. auto.
Qed.

Lemma step_next e m : next_handle m <= next_handle (step e m).
Proof.
  destruct e as [w msg now|w|id|id|a ps t now sfx err sat|h|now]; cbn [step].
  - destruct msg as [i|res|id mt|id]; cbn [handleMessage].
    + unfold register. destruct (lookup_exec m (executorId i)) as [[? ?]|];
        destruct (negb (truthy _)); simpl; lia.
    + unfold handleResult. destruct (find_pending _ _ _) as [[? ?]|]; simpl; lia.
    + unfold updateState. destruct (lookup_exec m id) as [[? ?]|]; simpl; lia.
    + destruct (lookup_exec m id) as [[? ?]|]; simpl; lia.
  - assert (U : forall id, next_handle (unregister id m) = next_handle m).
    { intros id. destruct (lookup_exec m id) as [[r c]|] eqn:L;
        [rewrite (unregister_spec _ _ _ _ L); reflexivity|unfold unregister; rewrite L; reflexivity]. }
    unfold unregisterByWs. destruct (find_by_ws _ _ _); [rewrite U|]; lia.
  - destruct (lookup_exec m id) as [[r c]|] eqn:L;
      [rewrite (unregister_spec _ _ _ _ L); simpl; lia|unfold unregister; rewrite L; lia].
  - unfold setDefault. destruct (map_get _ _); simpl; lia.
  - rewrite execute_unfold. destruct (getExecutor t m) as [[r conn]|]; [|simpl; lia].
    destruct err; simpl; lia.
  - unfold fire_timer. destruct (find_timer _ _); simpl; lia.
  - rewrite checkConnections_spec. simpl. lia.
Qed.

(** A step leaves every registered pending entry it does not create one
    of the state before it; the one it creates has the next handle. *)
Lemma step_holds e m p : wf m -> holds (step e m) p -> holds m p \/ p = next_handle m.
Proof.
  intros W H. destruct e as [w msg now|w|id|id|a ps t now sfx err sat|h|now]; cbn [step] in H.
  - destruct msg as [i|res|id mt|id]; cbn [handleMessage] in H.
    + left. destruct (register_executors w i now m) as (He & Hh & _ & _).
      destruct H as (id & r & c & kv & Hin & Hc & Hkv & Hp). rewrite He in Hin. rewrite Hh in Hc.
      destruct (map_set_In _ _ _ _ _ (wf_keys m W) Hin) as [[-> ->]|[_ Hin']].
      * rewrite nth_error_app2, Nat.sub_diag in Hc by lia. simpl in Hc.
        injection Hc as <-. destruct Hkv.
      * rewrite nth_error_app1 in Hc by exact (wf_live m W _ _ Hin'). exists id, r, c, kv. auto.
    + unfold handleResult in H.
      destruct (find_pending (heap m) (executors m) (res_id res)) as [[r e]|]; [|left; exact H].
      left. refine (holds_update_incl m _ r (drop_entry (res_id res)) p _ _ _ H); [reflexivity|reflexivity| ].
      intros c kv Hkv. apply map_delete_In in Hkv. apply Hkv.
    + unfold updateState in H. destruct (lookup_exec m id) as [[r c0]|]; [|left; exact H].
      left. refine (holds_update_incl m _ r (fun c => with_lastActive (with_meta c (merge_meta (meta (info c)) mt)) now) p _ _ _ H);
        [reflexivity|reflexivity| ].
      intros c kv Hkv. exact Hkv.
    + destruct (lookup_exec m id) as [[r c0]|]; [|left; exact H].
      left. refine (holds_update_incl m _ r (fun c => with_lastActive c now) p _ _ _ H); [reflexivity|reflexivity| ].
      intros c kv Hkv. exact Hkv.
  - left. unfold unregisterByWs in H. destruct (find_by_ws _ _ _); [|exact H].
    apply holds_unregister in H. exact H.
  - left. apply holds_unregister in H. exact H.
  - left. unfold setDefault in H. destruct (map_get _ _); [|exact H].
    exact (holds_same m _ p eq_refl eq_refl H).
  - rewrite execute_unfold in H. destruct (getExecutor t m) as [[r conn]|]; [|left; exact H].
    set (id := request_id now sfx) in H. set (q := next_handle m) in H.
    destruct err as [e|].
    + left. refine (holds_update_incl m _ r (fun c => drop_entry id (with_pending c (map_set (pendingRequests c) id (mkPending q q)))) p _ _ _ H);
        [reflexivity| | ].
      * cbn. rewrite list_update_compose. reflexivity.
      * intros c kv Hkv. unfold drop_entry, with_pending in Hkv. simpl in Hkv.
        rewrite map_delete_set_same in Hkv. apply map_delete_In in Hkv. apply Hkv.
    + refine (holds_update m _ r (fun c => with_lastActive (with_pending c (map_set (pendingRequests c) id (mkPending q q))) sat) q p _ _ _ H);
        [reflexivity| | ].
      * cbn. rewrite list_update_compose. reflexivity.
      * intros c kv Hkv. simpl in Hkv. destruct (map_set_In_or _ _ _ _ Hkv) as [Hk| ->]; [auto|].
        right. reflexivity.
  - unfold fire_timer in H. destruct (find_timer (timers m) h) as [tk|]; [|left; exact H].
    left. refine (holds_update_incl m _ (task_conn tk) (drop_entry (task_id tk)) p _ _ _ H); [reflexivity|reflexivity| ].
    intros c kv Hkv. apply map_delete_In in Hkv. apply Hkv.
  - left. rewrite checkConnections_spec in H. exact (holds_same m _ p eq_refl eq_refl H).
Qed.

(** A promise callback a step invokes is a timeout, the one of the request
    the step creates, or one held by a registered pending entry before. *)
Lemma step_calls e m x :
  In x (calls (step e m)) ->
  In x (calls m) \/ snd (fst x) = ArmTimeout \/ fst (fst x) = next_handle m \/ holds m (fst (fst x)).
Proof.
  intros H. destruct e as [w msg now|w|id|id|a ps t now sfx err sat|h|now]; cbn [step] in H.
  - destruct msg as [i|res|id mt|id]; cbn [handleMessage] in H.
    + left. rewrite (proj1 (proj2 (proj2 (register_executors w i now m)))) in H. exact H.
    + unfold handleResult in H.
      destruct (find_pending (heap m) (executors m) (res_id res)) as [[r e]|] eqn:F; [|left; exact H].
      simpl in H. apply in_app_or in H as [H|[<-|[]]]; [left; exact H|].
      right. right. right. destruct (find_pending_Some _ _ _ _ _ F) as (id & c & Hin & Hc & Hk).
      exists id, r, c, (res_id res, e). split; [exact Hin|]. split; [exact Hc|].
      split; [apply map_get_In; exact Hk|reflexivity].
    + left. unfold updateState in H. destruct (lookup_exec m id) as [[r c0]|]; exact H.
    + left. destruct (lookup_exec m id) as [[r c0]|]; exact H.
  - unfold unregisterByWs in H. destruct (find_by_ws _ _ _); [|left; exact H].
    destruct (calls_unregister _ _ _ H); auto.
  - destruct (calls_unregister _ _ _ H); auto.
  - left. unfold setDefault in H. destruct (map_get _ _); exact H.
  - rewrite execute_unfold in H. destruct (getExecutor t m) as [[r conn]|]; [|left; exact H].
    destruct err as [e|]; simpl in H; [|left; exact H].
    apply in_app_or in H as [H|[<-|[]]]; [left; exact H|]. right. right. left. reflexivity.
  - unfold fire_timer in H. destruct (find_timer (timers m) h) as [tk|]; [|left; exact H].
    simpl in H. apply in_app_or in H as [H|[<-|[]]]; [left; exact H|]. right. left. reflexivity.
  - left. rewrite checkConnections_spec in H. exact H.
Qed.

(** A promise that no registered pending entry holds any more can from
    then on be settled by its timeout only. *)
Lemma only_timeout_run es : forall m p,
  reachable m -> p < next_handle m -> ~ holds m p ->
  (forall x, In x (calls m) -> fst (fst x) = p -> snd (fst x) = ArmTimeout) ->
  forall x, In x (calls (run es m)) -> fst (fst x) = p -> snd (fst x) = ArmTimeout.
Proof.
  induction es as [|e es IH]; intros m p R Hlt Hh Hc; [exact Hc|].
  apply (IH (step e m) p (reach_step e m R)).
  - pose proof (step_next e m). lia.
  - intros H. destruct (step_holds e m p (reachable_wf m R) H) as [H'| ->]; [contradiction|lia].
  - intros x Hx Hp. destruct (step_calls e m x Hx) as [H|[H|[H|H]]]; [auto|exact H|lia|].
    rewrite Hp in H. contradiction.
Qed.

Lemma count_calls_zero_not_In m p x : count_calls m p = 0 -> In x (calls m) -> fst (fst x) <> p.
Proof.
  intros Hc Hx Hp. pose proof (proj2 (filter_count_pos (fun c => fst (fst c)) (calls m) p)
                                (ex_intro _ x (conj Hx Hp))) as H.
  unfold count_calls in Hc. lia.
Qed.

Lemma timer_handle_unique (l : list (nat * TimeoutTask)) h t1 t2 : NoDup (map fst l) -> In (h, t1) l -> In (h, t2) l -> t1 = t2.
Proof.
  intros Hnd H1 H2. pose proof (find_timer_NoDup l h t1 Hnd H1) as E1.
  rewrite (find_timer_NoDup l h t2 Hnd H2) in E1. congruence.
Qed.

(** ** Key order of plain objects *)

Lemma in_insert_index x s z : In z (insert_index x s) <-> x = z \/ In z s.
Proof.
  induction s as [|y t IH]; simpl; [tauto|].
  destruct (N.ltb _ _); simpl; [rewrite IH|]; tauto.
Qed.

Lemma in_sort_index l z : In z (fold_right insert_index [] l) <-> In z l.
Proof. induction l as [|x t IH]; simpl; [tauto|]. rewrite in_insert_index, IH. tauto. Qed.

Lemma map_get_insert_index x s k :
  map_get (insert_index x s) k = if String.eqb k (fst x) then Some (snd x) else map_get s k.
Proof.
  destruct x as [kx vx]. simpl. induction s as [|[ky vy] t IH]; simpl; [reflexivity|].
  destruct (N.ltb_spec (index_value ky) (index_value kx)) as [Hlt|Hge]; simpl; [|reflexivity].
  rewrite IH. destruct (String.eqb_spec k kx) as [E|Hkx].
  - subst k. destruct (String.eqb_spec kx ky) as [<-|]; [exfalso; exact (N.lt_irrefl _ Hlt)|reflexivity].
  - reflexivity.
Qed.

Lemma map_get_sort_index l k : map_get (fold_right insert_index [] l) k = map_get l k.
Proof.
  induction l as [|[kx vx] t IH]; simpl; [reflexivity|].
  rewrite map_get_insert_index, IH. reflexivity.
Qed.

Lemma map_get_filter_pair (q : string * string -> bool) l k b :
  (forall v, q (k, v) = b) -> map_get (filter q l) k = if b then map_get l k else None.
Proof.
  intros H. induction l as [|[k' v'] t IH]; simpl; [destruct b; reflexivity|].
  destruct (String.eqb_spec k k') as [<-|Hne].
  - rewrite (H v'). destruct b; simpl; rewrite ?String.eqb_refl; [reflexivity|exact IH].
  - destruct (q (k', v')); simpl; rewrite ?(proj2 (String.eqb_neq _ _) Hne); exact IH.
Qed.

Lemma map_get_own_keys l k : map_get (own_keys_order l) k = map_get l k.
Proof.
  unfold own_keys_order. rewrite map_get_app, map_get_sort_index.
  rewrite (map_get_filter_pair _ l k (is_index k)) by (intros; reflexivity).
  rewrite (map_get_filter_pair _ l k (negb (is_index k))) by (intros; reflexivity).
  destruct (is_index k); simpl; [destruct (map_get l k); reflexivity|reflexivity].
Qed.

Lemma in_keys_get (l : list (string * string)) k : In k (map_keys l) <-> exists v, map_get l k = Some v.
Proof.
  unfold map_keys. rewrite in_map_iff. split.
  - intros ([k' v] & <- & Hin). exact (map_get_In_ex l k' v Hin).
  - intros [v Hv]. exists (k, v). split; [reflexivity|]. apply map_get_In. exact Hv.
Qed.

Lemma map_filter_fst (p : string -> bool) (l : list (string * string)) :
  map fst (filter (fun kv => p (fst kv)) l) = filter p (map fst l).
Proof. induction l as [|x t IH]; simpl; [reflexivity|]. destruct (p (fst x)); simpl; f_equal; auto. Qed.

Lemma insert_index_sorted x s :
  Sorted (fun a b => (index_value (fst a) <= index_value (fst b))%N) s ->
  Sorted (fun a b => (index_value (fst a) <= index_value (fst b))%N) (insert_index x s).
Proof.
  induction s as [|y t IH]; simpl; intros Hs; [repeat constructor|].
  destruct (N.ltb_spec (index_value (fst y)) (index_value (fst x))) as [Hlt|Hge].
  - inversion Hs as [|? ? Ht Hd]; subst. constructor; [exact (IH Ht)|].
    destruct t as [|z t']; simpl; [constructor; lia|].
    destruct (N.ltb (index_value (fst z)) (index_value (fst x))); constructor; [|lia].
    inversion Hd; assumption.
  - constructor; [exact Hs|]. constructor. lia.
Qed.

Lemma sort_index_sorted l :
  Sorted (fun a b => (index_value (fst a) <= index_value (fst b))%N) (fold_right insert_index [] l).
Proof. induction l as [|x t IH]; simpl; [constructor|apply insert_index_sorted, IH]. Qed.

Lemma Sorted_map_fst (R : string -> string -> Prop) (l : list (string * string)) :
  Sorted (fun x y => R (fst x) (fst y)) l -> Sorted R (map fst l).
Proof.
  induction 1 as [|x l Hs IH Hd]; simpl; constructor; [exact IH|].
  destruct Hd; simpl; constructor; assumption.
Qed.

(** The properties of the fresh object of a spread, in creation order. *)
Lemma spread_lookup (old new : list (string * string)) k :
  map_get (fold_left (fun acc kv => map_set acc (fst kv) (snd kv)) new old) k =
    match map_get (rev new) k with Some v => Some v | None => map_get old k end.
Proof.
  revert old. induction new as [|[k' v'] t IH]; intros old; [reflexivity|].
  simpl. rewrite IH, map_get_app.
  destruct (map_get (rev t) k); [reflexivity|]. simpl.
  destruct (String.eqb_spec k k') as [->|Hne].
  - apply map_get_set_same.
  - apply map_get_set_other. exact Hne.
Qed.

Lemma spread_keys (old new : list (string * string)) :
  exists added, map_keys (fold_left (fun acc kv => map_set acc (fst kv) (snd kv)) new old) = map_keys old ++ added.
Proof.
  revert old. induction new as [|[k' v'] t IH]; intros old; simpl.
  - exists []. rewrite app_nil_r. reflexivity.
  - destruct (IH (map_set old k' v')) as [added Ha]. rewrite Ha, map_keys_set.
    destruct (map_get old k'); [exists added; reflexivity|].
    exists (k' :: added). rewrite <- app_assoc. reflexivity.
Qed.

(** ** Scenarios *)

Definition e1_register : ExecutorRegister := mkRegister "e1" "browser" ["click"] [].
Definition e2_register : ExecutorRegister := mkRegister "e2" "desktop" ["click"] [].

(** [e1] registers on transport handle 1 at time 0. *)
Definition st_e1 : Manager := run [EMessage 1 (MRegister e1_register) 0] emptyManager.

(** ... and a click is sent to it at time 5 with random suffix "abc". *)
Definition st_e1_pending : Manager :=
  run [EMessage 1 (MRegister e1_register) 0;
       EExecute "click" [("selector", "#x")] None 5 "abc" None 5] emptyManager.

Example request_id_shape : request_id 1700000000000 "k3x9zq" = "req_1700000000000_k3x9zq"%string.
Proof. reflexivity. Qed.

Example scenario_reply_routed :
  let m := st_e1_pending in
  traffic m = [(1, OExecute "req_5_abc" "click" [("selector", "#x")])] /\
  calls (handleResult (mkResult "req_5_abc" true None None) m) =
    [(0, ArmReply, Resolve (mkResult "req_5_abc" true None None))].
Proof. split; reflexivity. Qed.

Example scenario_default_promotion :
  defaultExecutorId (run [EMessage 2 (MRegister e2_register) 1] st_e1) = Some "e1"%string /\
  defaultExecutorId (run [EMessage 2 (MRegister e2_register) 1; EUnregister "e1"] st_e1) = Some "e2"%string.
Proof. split; reflexivity. Qed.

(** The connection of [e1] in [st_e1] and in [st_e1_pending]. *)
Definition conn_e1 : ExecutorConnection := mkConn 1 e1_register 0 0 [].
Definition conn_e1_pending : ExecutorConnection :=
  mkConn 1 e1_register 0 5 [("req_5_abc", mkPending 0 0)].

Definition st_empty_id : Manager :=
  run [EMessage 1 (MRegister (mkRegister "" "browser" [] [])) 0] emptyManager.

(** * Claims *)

(** C1 (code_bug).  Re-registering [e1] while a request of the old
    connection is pending closes the old transport handle but settles
    nothing: the old request stays armed on the replaced connection object
    and is only settled 30 s later by its timeout, not as superseded. *)
Theorem C1_reregister_leaves_pending :
  let m := run [EMessage 9 (MRegister e1_register) 7] st_e1_pending in
  closes m = [1] /\ calls m = [] /\
  find_timer (timers m) 0 = Some (mkTask 0 "req_5_abc" 0) /\
  calls (fire_timer 0 m) = [(0, ArmTimeout, Resolve (timeout_result "req_5_abc"))].
Proof. repeat split; reflexivity. Qed.

(** C2 (counterexample).  Unregistering [e1] while the request returned
    by [execute] is pending makes that promise reject with
    [Error("Executor disconnected")]: [execute]'s promise rejects. *)
Lemma C2_unregister_rejects :
  fst (execute "click" [("selector", "#x")] None 5 "abc" None 5 st_e1) = Awaiting 0 /\
  calls (unregister "e1" st_e1_pending) = [(0, ArmLoss, Reject "Executor disconnected")].
Proof. split; reflexivity. Qed.

(** C2 (amended).  No executor, timeout, send failure and the executor's
    own Result are all resolved Result values (failures with an error
    string; the executor's Result passed through); connection loss is the
    one path that rejects.  Unregistering a connection settles every one of
    its N pending requests in that same call, each by one rejection, and
    cancels their timers. *)
Theorem C2_failures_resolve_loss_rejects :
  (forall m, reachable m -> forall p a s, In (p, a, s) (calls m) ->
     match a, s with
     | ArmLoss, Reject msg => msg = "Executor disconnected"%string
     | ArmTimeout, Resolve r => success r = false /\ error r = Some "Request timeout after 30000ms"%string
     | ArmSendFail, Resolve r =>
         success r = false /\ exists e, error r = Some ("Failed to send command: " ++ e)%string
     | ArmReply, Resolve _ => True
     | _, _ => False
     end) /\
  (forall m a ps t now sfx err sat r, fst (execute a ps t now sfx err sat m) = Returned r ->
     success r = false /\ exists e, error r = Some e) /\
  (forall m res r e, find_pending (heap m) (executors m) (res_id res) = Some (r, e) ->
     calls (handleResult res m) = calls m ++ [(pending_promise e, ArmReply, Resolve res)]) /\
  (forall m id r c, lookup_exec m id = Some (r, c) ->
     calls (unregister id m) =
       calls m ++ map (fun kv => (pending_promise (snd kv), ArmLoss, Reject "Executor disconnected"))
                      (pendingRequests c) /\
     forall kv, In kv (pendingRequests c) -> find_timer (timers (unregister id m)) (timeout (snd kv)) = None).
Proof.
  split; [|split; [|split]].
  - intros m R p a s Hin. pose proof (wf_calls_ok m (reachable_wf m R) p a s Hin) as H.
    destruct a, s; simpl in H; simpl; try exact H; try contradiction; try exact I.
    rewrite H. split; reflexivity.
  - intros m a ps t now sfx err sat r. rewrite execute_unfold.
    destruct (getExecutor t m) as [[r0 c0]|]; [destruct err; discriminate|].
    simpl. intros H. injection H as <-. split; [reflexivity|eexists; reflexivity].
  - intros m res r e F. unfold handleResult. rewrite F. reflexivity.
  - intros m id r c L. rewrite (unregister_spec _ _ _ _ L). cbn. split; [reflexivity|].
    intros kv Hkv. apply find_timer_None. intros t Ht. apply filter_In in Ht as [_ Hr].
    simpl in Hr. apply negb_true_iff in Hr.
    assert (rejected_in (pendingRequests c) (timeout (snd kv)) = true)
      by (apply rejected_in_spec; eauto). congruence.
Qed.

(** C3.  In every reachable state the default executor is set exactly when
    some executor is registered, and it names a registered connection. *)
Theorem C3_default_invariant :
  forall m, reachable m ->
  (defaultExecutorId m = None <-> executors m = []) /\
  (forall d, defaultExecutorId m = Some d -> exists r c, lookup_exec m d = Some (r, c)).
Proof.
  intros m R. pose proof (reachable_wf m R) as W. split; [apply W|].
  intros d Hd. destruct (wf_default_live m W d Hd) as [r Hr].
  pose proof (wf_live m W _ _ Hr) as Hlt.
  destruct (nth_error (heap m) r) as [c|] eqn:Hc;
    [|apply nth_error_None in Hc; lia].
  exists r, c. unfold lookup_exec, conn_at. rewrite (In_map_get _ _ _ (wf_keys m W) Hr), Hc.
  reflexivity.
Qed.

(** C4 (counterexample).  A request whose send throws is settled by
    [execute]'s own catch block, by none of reply, timeout or connection
    loss. *)
Lemma C4_send_failure_is_fourth_arm :
  ~ (forall m, reachable m -> forall p a s, In (p, a, s) (calls m) ->
       a = ArmReply \/ a = ArmTimeout \/ a = ArmLoss).
Proof.
  intros H.
  set (m := run [EMessage 1 (MRegister e1_register) 0;
                 EExecute "click" [] None 5 "abc" (Some "socket closed") 5] emptyManager).
  assert (Hc : calls m = [(0, ArmSendFail,
                           Resolve (failure "req_5_abc" "Failed to send command: socket closed"))])
    by reflexivity.
  destruct (H m (reachable_run _ _ reach_init) 0 ArmSendFail
              (Resolve (failure "req_5_abc" "Failed to send command: socket closed")))
    as [E|[E|E]]; try discriminate.
  rewrite Hc. left. reflexivity.
Qed.

(** C4 (amended).  In every reachable state each request (promise) is
    settled at most once; once settled, its timer is no longer armed and
    no registered connection holds an entry for it, so neither a reply, nor
    its timeout, nor connection loss can settle it again; a request not yet
    settled still has its timer armed. *)
Theorem C4_settled_at_most_once :
  forall m, reachable m -> forall p,
  count_calls m p <= 1 /\
  (count_calls m p = 1 ->
     (forall t, ~ In (p, t) (timers m)) /\
     (forall r k e, registered_entry m r k e -> pending_promise e <> p)) /\
  (p < next_handle m -> count_calls m p = 0 -> exists t, In (p, t) (timers m)).
Proof.
  intros m R p. pose proof (reachable_wf m R) as W.
  split; [apply W|split].
  - intros H1. split.
    + intros t Ht. destruct (wf_timer m W _ _ Ht) as (_ & H0 & _). lia.
    + intros r k e Re Hp. destruct (wf_entry m W r k e Re) as [_ T]. rewrite Hp in T.
      destruct (wf_timer m W _ _ T) as (_ & H0 & _). lia.
  - intros Hlt H0. destruct (wf_settled_or_armed m W p Hlt) as [H1|Ht]; [lia|exact Ht].
Qed.

(** C5.  When the timeout of a request fires, its entry is removed from
    the connection it was sent on and the promise is resolved with
    {success:false, error:"Request timeout after 30000ms"}; and a reply
    whose id is pending on no registered connection changes nothing. *)
Theorem C5_timeout_and_late_reply :
  (forall m h t, find_timer (timers m) h = Some t ->
     calls (fire_timer h m) =
       calls m ++ [(task_promise t, ArmTimeout,
                    Resolve (mkResult (task_id t) false None (Some "Request timeout after 30000ms")))] /\
     find_timer (timers (fire_timer h m)) h = None /\
     (forall c, nth_error (heap (fire_timer h m)) (task_conn t) = Some c ->
                map_get (pendingRequests c) (task_id t) = None)) /\
  (forall m res,
     (forall id r c, In (id, r) (executors m) -> nth_error (heap m) r = Some c ->
                     map_get (pendingRequests c) (res_id res) = None) ->
     handleResult res m = m).
Proof.
  split.
  - intros m h t F. unfold fire_timer. rewrite F. cbn. split; [reflexivity|split].
    + apply find_timer_None. intros t' Ht'. apply filter_In in Ht' as [_ Hne].
      simpl in Hne. rewrite Nat.eqb_refl in Hne. discriminate.
    + intros c Hc. rewrite nth_error_list_update, Nat.eqb_refl in Hc.
      destruct (nth_error _ (task_conn t)) as [c0|]; simpl in Hc; [|discriminate].
      inversion Hc; subst. apply map_get_delete_same.
  - intros m res H. unfold handleResult. rewrite find_pending_None_intro by exact H. reflexivity.
Qed.

(** C6 (counterexample).  With [e1] registered as default, naming the
    empty string, which is no registered executor, does not fail: the
    command is sent to [e1]. *)
Lemma C6_empty_name_routes_to_default :
  lookup_exec st_e1 "" = None /\
  fst (execute "click" [] (Some "") 5 "abc" None 5 st_e1) = Awaiting 0 /\
  traffic (snd (execute "click" [] (Some "") 5 "abc" None 5 st_e1)) = [(1, OExecute "req_5_abc" "click" [])].
Proof. repeat split; reflexivity. Qed.

(** C6 (amended).  A non-empty name that is not registered yields
    "Executor not found: <name>"; no name, or the empty name, with no
    usable default yields "No executor connected"; both return at once with
    id "" and success false and leave the state, transport traffic
    included, unchanged.  The empty name is treated as no name. *)
Theorem C6_unresolved_target :
  forall m a ps now sfx err sat,
  (forall s, s <> "" -> lookup_exec m s = None ->
     execute a ps (Some s) now sfx err sat m =
       (Returned (mkResult "" false None (Some ("Executor not found: " ++ s)%string)), m)) /\
  (forall t, (t = None \/ t = Some "") ->
     (defaultExecutorId m = None \/ defaultExecutorId m = Some "" \/
      exists d, defaultExecutorId m = Some d /\ lookup_exec m d = None) ->
     execute a ps t now sfx err sat m =
       (Returned (mkResult "" false None (Some "No executor connected")), m)) /\
  execute a ps (Some "") now sfx err sat m = execute a ps None now sfx err sat m.
Proof.
  intros m a ps now sfx err sat. split; [|split].
  - intros s Hs L. assert (E : String.eqb s "" = false) by (apply String.eqb_neq; exact Hs).
    unfold execute, getExecutor, truthy. rewrite E. simpl. rewrite E. simpl. rewrite L. reflexivity.
  - intros t Ht Hd. unfold execute, getExecutor.
    destruct Ht as [->| ->]; simpl;
      (destruct Hd as [->|[->|(d & -> & L)]]; simpl; [reflexivity|reflexivity|]);
      (destruct (String.eqb d ""); simpl; [reflexivity|rewrite L; reflexivity]).
  - reflexivity.
Qed.

(** C7 (counterexample).  A second request in the same millisecond with
    the same random suffix collides with the pending one; when its send
    throws, the catch block deletes the shared id, so the earlier request's
    entry is lost too (its timer is still armed). *)
Lemma C7_colliding_send_failure :
  let m' := snd (execute "type" [] None 5 "abc" (Some "boom") 5 st_e1_pending) in
  map pendingRequests (heap st_e1_pending) = [[("req_5_abc", mkPending 0 0)]] /\
  map pendingRequests (heap m') = [[]] /\
  find_timer (timers m') 0 = Some (mkTask 0 "req_5_abc" 0).
Proof. repeat split; reflexivity. Qed.

(** C7 (amended).  When the send throws and the new id was not already
    pending on the target connection, [execute] resolves its promise with
    "Failed to send command: <reason>" and leaves every connection (its
    pending map included), the armed timers and the transport traffic as
    they were; no timer remains for the new request.  When the id was
    already pending there, the catch block's delete also removes that
    earlier request's entry, while its promise stays unsettled and its
    timer stays armed; the other connections are untouched. *)
Theorem C7_send_failure_restores_state :
  (forall m a ps t now sfx e sat r c,
   reachable m -> getExecutor t m = Some (r, c) ->
   map_get (pendingRequests c) (request_id now sfx) = None ->
   let res := execute a ps t now sfx (Some e) sat m in
   fst res = Awaiting (next_handle m) /\
   heap (snd res) = heap m /\ timers (snd res) = timers m /\ traffic (snd res) = traffic m /\
   calls (snd res) = calls m ++ [(next_handle m, ArmSendFail,
                                  Resolve (mkResult (request_id now sfx) false None
                                             (Some ("Failed to send command: " ++ e)%string)))] /\
   find_timer (timers (snd res)) (next_handle m) = None) /\
  (forall m a ps t now sfx e sat r c e0,
   reachable m -> getExecutor t m = Some (r, c) ->
   map_get (pendingRequests c) (request_id now sfx) = Some e0 ->
   let res := execute a ps t now sfx (Some e) sat m in
   nth_error (heap (snd res)) r = Some (with_pending c (map_delete (pendingRequests c) (request_id now sfx))) /\
   map_get (map_delete (pendingRequests c) (request_id now sfx)) (request_id now sfx) = None /\
   (forall r', r' <> r -> nth_error (heap (snd res)) r' = nth_error (heap m) r') /\
   count_calls (snd res) (pending_promise e0) = 0 /\
   find_timer (timers (snd res)) (pending_promise e0) =
     Some (mkTask r (request_id now sfx) (pending_promise e0))).
Proof.
  split.
  - intros m a ps t now sfx e sat r c R G Hk. pose proof (reachable_wf m R) as W.
    destruct (getExecutor_Some _ _ _ _ G) as [s L]. destruct (lookup_exec_Some _ _ _ _ L) as [_ Hc].
    cbv zeta. rewrite execute_unfold, G. cbn -[request_id]. rewrite (send_fail_timers m r _ W).
    split; [reflexivity|]. split.
    + rewrite list_update_compose. apply (list_update_id _ _ _ c Hc).
      unfold drop_entry, with_pending. simpl. rewrite map_delete_set_absent by exact Hk.
      destruct c; reflexivity.
    + split; [reflexivity|]. split; [reflexivity|]. split; [reflexivity|].
      apply find_timer_None. intros tk Hin. destruct (wf_timer m W _ _ Hin) as (_ & _ & Hlt). lia.
  - intros m a ps t now sfx e sat r c e0 R G Hk. pose proof (reachable_wf m R) as W.
    destruct (getExecutor_Some _ _ _ _ G) as [s L]. destruct (lookup_exec_Some _ _ _ _ L) as [Hg Hc].
    destruct (wf_entry m W r (request_id now sfx) e0) as [_ T].
    { exists s, c. split; [apply map_get_In; exact Hg|]. split; [exact Hc|]. apply map_get_In. exact Hk. }
    destruct (wf_timer m W _ _ T) as (_ & Hcnt & Hlt).
    cbv zeta. rewrite execute_unfold, G. cbn -[request_id]. rewrite (send_fail_timers m r _ W).
    rewrite list_update_compose.
    split; [|split; [|split; [|split]]].
    + rewrite nth_error_list_update, Nat.eqb_refl, Hc. simpl.
      unfold drop_entry, with_pending. simpl. rewrite map_delete_set_same. reflexivity.
    + apply map_get_delete_same.
    + intros r' Hne. rewrite nth_error_list_update.
      apply Nat.eqb_neq in Hne. rewrite Hne. reflexivity.
    + unfold count_calls in *. simpl. rewrite filter_app, length_app, Hcnt. simpl.
      destruct (Nat.eqb (next_handle m) (pending_promise e0)) eqn:E; [apply Nat.eqb_eq in E; lia|].
      reflexivity.
    + apply find_timer_NoDup; [apply W|exact T].
Qed.

(** C8 (counterexample).  Two clicks to [e1] in the same millisecond with
    the same random suffix get the same id while the first is pending:
    both requests stay unsettled and the map keeps only the second. *)
Lemma C8_same_millisecond_collision :
  let m := snd (execute "click" [] None 5 "abc" None 5 st_e1_pending) in
  map pendingRequests (heap st_e1_pending) = [[("req_5_abc", mkPending 0 0)]] /\
  traffic m = [(1, OExecute "req_5_abc" "click" [("selector", "#x")]);
               (1, OExecute "req_5_abc" "click" [])] /\
  map pendingRequests (heap m) = [[("req_5_abc", mkPending 1 1)]] /\
  count_calls m 0 = 0 /\ count_calls m 1 = 0.
Proof. repeat split; reflexivity. Qed.

Lemma append_cancel_prefix (p x y : string) : (p ++ x)%string = (p ++ y)%string -> x = y.
Proof. induction p as [|a p IH]; simpl; [auto|]. intros H. inversion H. auto. Qed.

(** C8 (amended).  The id is req_<Date.now()>_<random suffix>: requests
    made at different milliseconds or with different suffixes get different
    ids, but the pending map itself is not consulted.  When a new request
    on a connection gets an id already pending there, the new entry
    overwrites the earlier one in the pending map; the earlier request is
    still unsettled and its timer still armed, and from then on, whatever
    events follow, only its timeout can settle it. *)
Theorem C8_request_id_collision :
  (forall now1 now2 sfx1 sfx2,
   request_id now1 sfx1 = request_id now2 sfx2 -> now1 = now2 /\ sfx1 = sfx2) /\
  (forall m a ps t now sfx sat r c e0,
   reachable m -> getExecutor t m = Some (r, c) ->
   map_get (pendingRequests c) (request_id now sfx) = Some e0 ->
   let m1 := snd (execute a ps t now sfx None sat m) in
   (exists c1, nth_error (heap m1) r = Some c1 /\
      map_get (pendingRequests c1) (request_id now sfx) = Some (mkPending (next_handle m) (next_handle m))) /\
   pending_promise e0 <> next_handle m /\
   count_calls m1 (pending_promise e0) = 0 /\
   find_timer (timers m1) (pending_promise e0) = Some (mkTask r (request_id now sfx) (pending_promise e0)) /\
   (forall es p a' s, In (p, a', s) (calls (run es m1)) -> p = pending_promise e0 -> a' = ArmTimeout)).
Proof.
  split.
  - intros now1 now2 sfx1 sfx2 H. unfold request_id in H.
    apply append_cancel_prefix in H.
    destruct (split_underscore _ _ _ _ (no_underscore_Z now1) (no_underscore_Z now2) H) as [E ->].
    split; [apply string_of_Z_inj; exact E|reflexivity].
  - intros m a ps t now sfx sat r c e0 R G Hk. pose proof (reachable_wf m R) as W.
    destruct (getExecutor_Some _ _ _ _ G) as [s L]. destruct (lookup_exec_Some _ _ _ _ L) as [Hg Hc].
    set (id := request_id now sfx) in *. set (p := next_handle m).
    set (p0 := pending_promise e0).
    assert (Hin : In (s, r) (executors m)) by (apply map_get_In; exact Hg).
    destruct (wf_entry m W r id e0) as [_ T].
    { exists s, c. split; [exact Hin|]. split; [exact Hc|]. apply map_get_In. exact Hk. }
    destruct (wf_timer m W _ _ T) as (_ & Hcnt & Hlt).
    set (f := fun c0 => with_lastActive (with_pending c0 (map_set (pendingRequests c0) id (mkPending p p))) sat).
    set (m1 := update_conn (send (arm_request m r id) (ws c) (OExecute id a ps)) r
                           (fun c0 => with_lastActive c0 sat)).
    assert (E1 : snd (execute a ps t now sfx None sat m) = m1)
      by (rewrite execute_unfold, G; reflexivity).
    assert (He1 : executors m1 = executors m) by reflexivity.
    assert (Hh1 : heap m1 = list_update (heap m) r f)
      by (unfold m1, f, update_conn, arm_request; cbn; rewrite list_update_compose; reflexivity).
    assert (Ht1 : timers m1 = timers m ++ [(p, mkTask r id p)]) by reflexivity.
    assert (Hc1 : calls m1 = calls m) by reflexivity.
    assert (Hn1 : next_handle m1 = S p) by reflexivity.
    assert (R1 : reachable m1).
    { rewrite <- E1. exact (reach_step (EExecute a ps t now sfx None sat) m R). }
    assert (Hne : p0 <> p) by (unfold p0, p; lia).
    assert (Hcnt1 : count_calls m1 p0 = 0) by (unfold count_calls; rewrite Hc1; exact Hcnt).
    cbv zeta. rewrite E1.
    split; [|split; [exact Hne|split; [exact Hcnt1|split]]].
    + exists (f c). split; [rewrite Hh1, nth_error_list_update, Nat.eqb_refl, Hc; reflexivity|].
      unfold f. simpl. apply map_get_set_same.
    + apply find_timer_NoDup; [apply (reachable_wf m1 R1)|]. rewrite Ht1. apply in_or_app. left. exact T.
    + intros es q a' s' Hx Hq. subst q.
      apply (only_timeout_run es m1 p0 R1 ltac:(rewrite Hn1; unfold p0, p; lia)) with (x := (p0, a', s'));
        [| |exact Hx|reflexivity].
      * intros (id' & r' & c' & kv & Hin' & Hc' & Hkv & Hp).
        rewrite He1 in Hin'. rewrite Hh1, nth_error_list_update in Hc'.
        assert (Hold : forall r'' c'' kv', In (id', r'') (executors m) -> nth_error (heap m) r'' = Some c'' ->
                         In kv' (pendingRequests c'') -> pending_promise (snd kv') = p0 -> r'' = r /\ fst kv' = id).
        { intros r'' c'' kv' Hi Hc'' Hk' Hp'.
          destruct (wf_entry m W r'' (fst kv') (snd kv')) as [_ T'].
          { exists id', c''. split; [exact Hi|]. split; [exact Hc''|]. destruct kv'; exact Hk'. }
          rewrite Hp' in T'. pose proof (timer_handle_unique _ _ _ _ (wf_timer_handles m W) T T') as Et.
          injection Et as -> ->. split; reflexivity. }
        destruct (Nat.eqb_spec r' r) as [->|Hr].
        -- rewrite Hc in Hc'. injection Hc' as <-. unfold f in Hkv. simpl in Hkv.
           destruct kv as [k v].
           destruct (map_set_In _ _ _ _ _ (wf_pending_keys m W r c Hc) Hkv) as [[_ ->]|[Hkid Hkv']].
           ++ simpl in Hp. apply Hne. symmetry. exact Hp.
           ++ destruct (Hold r c (k, v) Hin' Hc Hkv' Hp) as [_ Ek]. simpl in Ek. contradiction.
        -- destruct (Hold r' c' kv Hin' Hc' Hkv Hp) as [Er _]. contradiction.
      * intros x Hx' Hp. exfalso. exact (count_calls_zero_not_In m1 p0 x Hcnt1 Hx' Hp).
Qed.

(** C9.  The heartbeat sweep sends one control ping per registered
    connection idle for more than 45 s, to its transport handle, and
    changes nothing else: registry, default, connections, timers and
    promise callbacks are untouched. *)
Theorem C9_sweep_pings_only :
  forall now m,
  let m' := checkConnections now m in
  executors m' = executors m /\ defaultExecutorId m' = defaultExecutorId m /\
  heap m' = heap m /\ timers m' = timers m /\ calls m' = calls m /\ closes m' = closes m /\
  exists pings, traffic m' = traffic m ++ pings /\
    forall w o, In (w, o) pings <->
      o = OControlPing /\
      exists id r c, In (id, r) (executors m) /\ nth_error (heap m) r = Some c /\ ws c = w /\
                     (now - lastActiveAt c > 45000)%Z.
Proof.
  intros now m. cbv zeta. rewrite checkConnections_spec. cbn.
  repeat split; try reflexivity.
  exists (stale_pings now (heap m) (executors m)). split; [reflexivity|].
  intros w o. apply stale_pings_In.
Qed.



(** * Witnesses: the claim theorems applied at concrete states *)

Lemma C2_witness :
  lookup_exec st_e1_pending "e1" = Some (0, conn_e1_pending) /\
  calls (unregister "e1" st_e1_pending) = [(0, ArmLoss, Reject "Executor disconnected")].
Proof.
  split; [reflexivity|].
  destruct (proj2 (proj2 (proj2 C2_failures_resolve_loss_rejects)) st_e1_pending "e1" 0 conn_e1_pending
              ltac:(reflexivity)) as [H _].
  rewrite H. reflexivity.
Defined.

Lemma C3_witness :
  defaultExecutorId st_e1 = Some "e1" /\ exists r c, lookup_exec st_e1 "e1" = Some (r, c).
Proof.
  split; [reflexivity|].
  apply (proj2 (C3_default_invariant st_e1 (reachable_run _ _ reach_init))). reflexivity.
Defined.

Lemma C4_witness :
  count_calls st_e1_pending 0 = 0 /\ exists t, In (0, t) (timers st_e1_pending).
Proof.
  split; [reflexivity|].
  apply (proj2 (proj2 (C4_settled_at_most_once st_e1_pending (reachable_run _ _ reach_init) 0)));
    [vm_compute; lia|reflexivity].
Defined.

Lemma C5_witness :
  calls (fire_timer 0 st_e1_pending) =
    [(0, ArmTimeout, Resolve (mkResult "req_5_abc" false None (Some "Request timeout after 30000ms")))] /\
  handleResult (mkResult "req_late" true None None) st_e1_pending = st_e1_pending.
Proof.
  split.
  - destruct (proj1 C5_timeout_and_late_reply st_e1_pending 0 (mkTask 0 "req_5_abc" 0)
                ltac:(reflexivity)) as [H _].
    rewrite H. reflexivity.
  - apply (proj2 C5_timeout_and_late_reply).
    intros id r c Hin Hc. vm_compute in Hin. destruct Hin as [E|[]]. inversion E; subst.
    vm_compute in Hc. inversion Hc. reflexivity.
Defined.

Lemma C6_witness :
  execute "click" [] (Some "e9") 0 "x" None 0 st_e1 =
    (Returned (mkResult "" false None (Some "Executor not found: e9")), st_e1) /\
  execute "click" [] None 0 "x" None 0 emptyManager =
    (Returned (mkResult "" false None (Some "No executor connected")), emptyManager).
Proof.
  split.
  - apply (proj1 (C6_unresolved_target st_e1 "click" [] 0 "x" None 0) "e9");
      [discriminate|reflexivity].
  - apply (proj1 (proj2 (C6_unresolved_target emptyManager "click" [] 0 "x" None 0)) None);
      [left; reflexivity|left; reflexivity].
Defined.

Lemma C7_witness :
  getExecutor None st_e1 = Some (0, conn_e1) /\
  heap (snd (execute "click" [] None 5 "abc" (Some "boom") 5 st_e1)) = heap st_e1 /\
  getExecutor None st_e1_pending = Some (0, conn_e1_pending) /\
  find_timer (timers (snd (execute "type" [] None 5 "abc" (Some "boom") 5 st_e1_pending))) 0 =
    Some (mkTask 0 "req_5_abc" 0).
Proof.
  split; [reflexivity|]. split.
  - pose proof (proj1 C7_send_failure_restores_state st_e1 "click" [] None 5%Z "abc" "boom" 5%Z 0 conn_e1
                  (reachable_run _ _ reach_init) ltac:(reflexivity) ltac:(reflexivity)) as H.
    cbv zeta in H. exact (proj1 (proj2 H)).
  - split; [reflexivity|].
    pose proof (proj2 C7_send_failure_restores_state st_e1_pending "type" [] None 5%Z "abc" "boom" 5%Z 0
                  conn_e1_pending (mkPending 0 0)
                  (reachable_run _ _ reach_init) ltac:(reflexivity) ltac:(reflexivity)) as H.
    cbv zeta in H. exact (proj2 (proj2 (proj2 (proj2 H)))).
Defined.

Lemma C8_witness :
  ((5 = 5)%Z /\ "abc" = "abc") /\
  getExecutor None st_e1_pending = Some (0, conn_e1_pending) /\
  (forall es p a s,
     In (p, a, s) (calls (run es (snd (execute "click" [] None 5 "abc" None 6 st_e1_pending)))) ->
     p = 0 -> a = ArmTimeout).
Proof.
  split.
  - exact (proj1 C8_request_id_collision 5%Z 5%Z "abc" "abc" eq_refl).
  - split; [reflexivity|].
    pose proof (proj2 C8_request_id_collision st_e1_pending "click" [] None 5%Z "abc" 6%Z 0
                  conn_e1_pending (mkPending 0 0)
                  (reachable_run _ _ reach_init) ltac:(reflexivity) ltac:(reflexivity)) as H.
    cbv zeta in H. exact (proj2 (proj2 (proj2 (proj2 H)))).
Defined.

Lemma C9_witness :
  executors (checkConnections 50000 st_e1) = executors st_e1 /\
  traffic (checkConnections 50000 st_e1) = [(1, OControlPing)].
Proof.
  split; [exact (proj1 (C9_sweep_pings_only 50000 st_e1))|reflexivity].
Defined.


(** * Further properties of the manager, the tool handler and the module singletons *)
(** ** Extras *)
(** X1.  In every reachable state [list()] returns one entry per
    registered executor, in registration order, each carrying the
    executorId it is registered under; so no executorId is listed twice. *)
Theorem list_reports_registered_ids :
  forall m, reachable m ->
  map info_executorId (list_executors m) = map_keys (executors m) /\
  NoDup (map info_executorId (list_executors m)).
Proof.
  intros m R. pose proof (reachable_wf m R) as W. pose proof (reachable_ids_match m R) as I.
  assert (G : forall l, (forall id r, In (id, r) l -> In (id, r) (executors m)) ->
            map info_executorId
              (flat_map (fun kv => match conn_at m (snd kv) with
                                   | Some c => [to_info c]
                                   | None => []
                                   end) l) = map fst l).
  { induction l as [|[id r] t IH]; intros Hl; [reflexivity|]. cbn [flat_map snd fst].
    assert (Hin : In (id, r) (executors m)) by (apply Hl; left; reflexivity).
    destruct (conn_at m r) as [c|] eqn:Hc; unfold conn_at in Hc.
    - rewrite map_app, IH by (intros; apply Hl; right; assumption). simpl.
      rewrite (I id r c Hin Hc). reflexivity.
    - exfalso. apply nth_error_None in Hc. pose proof (wf_live m W _ _ Hin). lia. }
  unfold list_executors. rewrite G by auto. split; [reflexivity|apply W].
Qed.
Lemma list_reports_registered_ids_witness :
  map info_executorId (list_executors (run [EMessage 2 (MRegister e2_register) 1] st_e1)) = ["e1"; "e2"].
Proof.
  assert (R : reachable st_e1) by exact (reachable_run _ _ reach_init).
  rewrite (proj1 (list_reports_registered_ids _ (reachable_run [EMessage 2 (MRegister e2_register) 1] _ R))).
  reflexivity.
Defined.
(** X2.  The [executor_use] tool answers "Default executor set to: <id>"
    exactly when <id> is registered.  Then the default becomes <id> and,
    for a non-empty <id>, an [execute] without executorId resolves to that
    executor's connection.  For an unregistered <id> it answers "Executor
    not found: <id>" and changes nothing.  An executor registered under
    the empty id is accepted as default, but an [execute] without
    executorId then finds no executor. *)
Theorem executor_use_routes_untargeted :
  (forall m id r, map_get (executors m) id = Some r -> id <> "" ->
     fst (executor_use id m) = ("Default executor set to: " ++ id)%string /\
     getDefault (snd (executor_use id m)) = Some id /\
     getExecutor None (snd (executor_use id m)) = lookup_exec m id) /\
  (forall m id, map_get (executors m) id = None ->
     executor_use id m = (("Executor not found: " ++ id)%string, m)) /\
  (forall m r, map_get (executors m) "" = Some r ->
     fst (executor_use "" m) = "Default executor set to: " /\
     getDefault (snd (executor_use "" m)) = Some "" /\
     getExecutor None (snd (executor_use "" m)) = None).
Proof.
  split; [|split].
  - intros m id r Hg Hne. unfold executor_use, setDefault. rewrite Hg. cbn.
    split; [reflexivity|]. split; [reflexivity|].
    unfold getExecutor. cbn. apply String.eqb_neq in Hne. rewrite Hne. reflexivity.
  - intros m id Hg. unfold executor_use, setDefault. rewrite Hg. reflexivity.
  - intros m r Hg. unfold executor_use, setDefault. rewrite Hg. cbn. auto.
Qed.
Lemma executor_use_routes_untargeted_witness :
  getExecutor None (snd (executor_use "e1" st_e1)) = Some (0, conn_e1) /\
  executor_use "e9" st_e1 = ("Executor not found: e9", st_e1) /\
  getExecutor None (snd (executor_use "" st_empty_id)) = None.
Proof.
  split; [|split].
  - rewrite (proj2 (proj2 (proj1 executor_use_routes_untargeted st_e1 "e1" 0 eq_refl ltac:(discriminate)))).
    reflexivity.
  - exact (proj1 (proj2 executor_use_routes_untargeted) st_e1 "e9" eq_refl).
  - exact (proj2 (proj2 (proj2 (proj2 executor_use_routes_untargeted) st_empty_id 0 eq_refl))).
Defined.
(** X3.  [register] in a reachable state: the executorId now resolves to
    a fresh connection object on the new transport handle, with both
    timestamps at the registration time and no pending request.  Every
    other executorId resolves as before.  A new id is appended to the
    registration order, and a re-registered id keeps its position.  The
    default changes only when it was unset (or the empty id), and becomes
    this executorId.  The only transport closed is the replaced
    connection's. *)
Theorem register_effects :
  forall w i now m, reachable m ->
  let m' := register w i now m in
  lookup_exec m' (executorId i) = Some (length (heap m), mkConn w i now now []) /\
  (forall id, id <> executorId i -> lookup_exec m' id = lookup_exec m id) /\
  map_keys (executors m') =
    match map_get (executors m) (executorId i) with
    | Some _ => map_keys (executors m)
    | None => map_keys (executors m) ++ [executorId i]
    end /\
  getDefault m' = (if truthy (getDefault m) then getDefault m else Some (executorId i)) /\
  closes m' = closes m ++ match lookup_exec m (executorId i) with Some (_, c) => [ws c] | None => [] end.
Proof.
  intros w i now m R. pose proof (reachable_wf m R) as W. cbv zeta.
  destruct (register_executors w i now m) as (He & Hh & _).
  split; [|split; [|split; [|split]]].
  - unfold lookup_exec, conn_at. rewrite He, Hh, map_get_set_same.
    rewrite nth_error_app2, Nat.sub_diag by lia. reflexivity.
  - intros id Hne. unfold lookup_exec, conn_at. rewrite He, Hh, map_get_set_other by exact Hne.
    destruct (map_get (executors m) id) as [r|] eqn:Hg; [|reflexivity].
    rewrite nth_error_app1; [reflexivity|]. apply (wf_live m W id). apply map_get_In. exact Hg.
  - rewrite He. apply map_keys_set.
  - apply register_default.
  - apply register_closes.
Qed.
Lemma register_effects_witness :
  closes (register 9 e1_register 7%Z st_e1) = [1] /\
  getDefault (register 9 e2_register 7%Z st_e1) = Some "e1".
Proof.
  assert (R : reachable st_e1) by exact (reachable_run _ _ reach_init).
  split.
  - destruct (register_effects 9 e1_register 7%Z st_e1 R) as (_ & _ & _ & _ & H). rewrite H. reflexivity.
  - destruct (register_effects 9 e2_register 7%Z st_e1 R) as (_ & _ & _ & H & _). rewrite H. reflexivity.
Defined.
(** X4.  Unregistering a registered executor: its executorId no longer
    resolves, every other executorId resolves to the same connection as
    before, and the id leaves the registration order.  When it was the
    default, the new default is the earliest-registered remaining
    executor (none when no executor remains); otherwise the default is
    kept. *)
Theorem unregister_effects :
  forall m id r c, lookup_exec m id = Some (r, c) ->
  let m' := unregister id m in
  lookup_exec m' id = None /\
  (forall id', id' <> id -> lookup_exec m' id' = lookup_exec m id') /\
  map_keys (executors m') = filter (fun k => negb (String.eqb id k)) (map_keys (executors m)) /\
  (getDefault m = Some id ->
     getDefault m' = hd_error (filter (fun k => negb (String.eqb id k)) (map_keys (executors m)))) /\
  (getDefault m <> Some id -> getDefault m' = getDefault m).
Proof.
  intros m id r c L. cbv zeta. rewrite (unregister_spec _ _ _ _ L). cbv zeta.
  split; [|split; [|split; [|split]]].
  - unfold lookup_exec, conn_at. cbn. rewrite map_get_delete_same. reflexivity.
  - intros id' Hne. unfold lookup_exec, conn_at. cbn. rewrite map_get_delete_other by exact Hne.
    reflexivity.
  - cbn. apply map_keys_delete.
  - unfold getDefault. cbn. intros ->. rewrite String.eqb_refl, map_keys_delete. reflexivity.
  - unfold getDefault. cbn. destruct (defaultExecutorId m) as [d|]; [|reflexivity].
    intros Hd. destruct (String.eqb_spec d id) as [->|]; [contradiction|reflexivity].
Qed.
Lemma unregister_effects_witness :
  getDefault (unregister "e1" (run [EMessage 2 (MRegister e2_register) 1] st_e1)) = Some "e2" /\
  getDefault (unregister "e2" (run [EMessage 2 (MRegister e2_register) 1] st_e1)) = Some "e1".
Proof.
  split.
  - destruct (unregister_effects (run [EMessage 2 (MRegister e2_register) 1] st_e1) "e1" 0 conn_e1 eq_refl)
      as (_ & _ & _ & H & _).
    rewrite H; reflexivity.
  - destruct (unregister_effects (run [EMessage 2 (MRegister e2_register) 1] st_e1) "e2" 1
                (mkConn 2 e2_register 1 1 []) eq_refl) as (_ & _ & _ & _ & H).
    rewrite H; [reflexivity|discriminate].
Defined.
(** X5.  [unregister] is idempotent: unregistering the same executorId a
    second time changes nothing, in particular it rejects no request
    twice. *)
Theorem unregister_idempotent :
  forall id m, unregister id (unregister id m) = unregister id m.
Proof.
  intros id m. destruct (lookup_exec m id) as [[r c]|] eqn:L.
  - assert (N : lookup_exec (unregister id m) id = None).
    { rewrite (unregister_spec _ _ _ _ L). unfold lookup_exec, conn_at. cbn.
      rewrite map_get_delete_same. reflexivity. }
    unfold unregister at 1. rewrite N. reflexivity.
  - assert (E : unregister id m = m) by (unfold unregister; rewrite L; reflexivity).
    rewrite E, E. reflexivity.
Qed.
(** X6.  [updateState] for a registered executor changes only that
    executor's connection object: its meta becomes the merge of the old
    meta with the new one and its lastActiveAt the current time; its
    transport, its registration data otherwise, connectedAt and pending
    requests stay.  Other executors, the registry, the default, timers,
    promise callbacks, traffic and closed transports are untouched.  For
    an executorId that is not registered it does nothing. *)
Theorem updateState_effects :
  (forall m id mt now r c, reachable m -> lookup_exec m id = Some (r, c) ->
   let m' := updateState id mt now m in
   lookup_exec m' id = Some (r, with_lastActive (with_meta c (merge_meta (meta (info c)) mt)) now) /\
   (forall id', id' <> id -> lookup_exec m' id' = lookup_exec m id') /\
   executors m' = executors m /\ getDefault m' = getDefault m /\ timers m' = timers m /\
   calls m' = calls m /\ traffic m' = traffic m /\ closes m' = closes m) /\
  (forall m id mt now, lookup_exec m id = None -> updateState id mt now m = m).
Proof.
  split.
  - intros m id mt now r c R L. pose proof (reachable_wf m R) as W. cbv zeta.
    unfold updateState. rewrite L.
    split; [exact (lookup_update_same m id r c
                     (fun c0 => with_lastActive (with_meta c0 (merge_meta (meta (info c0)) mt)) now) L)|].
    split; [intros id' Hne; apply (lookup_update_other m id id' r c); assumption|].
    repeat split.
  - intros m id mt now L. unfold updateState. rewrite L. reflexivity.
Qed.
Lemma updateState_effects_witness :
  lookup_exec (updateState "e1" [("url", "a")] 3%Z st_e1) "e1" =
    Some (0, mkConn 1 (mkRegister "e1" "browser" ["click"] [("url", "a")]) 0 3 []) /\
  updateState "e9" [("url", "a")] 3%Z st_e1 = st_e1.
Proof.
  split.
  - rewrite (proj1 ((proj1 updateState_effects) st_e1 "e1" [("url", "a")] 3%Z 0 conn_e1
                      (reachable_run _ _ reach_init) eq_refl)).
    reflexivity.
  - exact ((proj2 updateState_effects) st_e1 "e9" [("url", "a")] 3%Z eq_refl).
Defined.
(** X7.  The meta merge [{ ...old, ...new }] of [updateState]: a key of
    the new meta takes its value there (the last occurrence wins), any
    other key keeps its old value, and the keys are those of both.  The
    keys are listed with the array-index keys first, in ascending numeric
    order, then the other old keys in their old order, then the other
    added keys. *)
Theorem merge_meta_lookup :
  forall old new k,
  map_get (merge_meta old new) k =
    match map_get (rev new) k with Some v => Some v | None => map_get old k end /\
  (In k (map_keys (merge_meta old new)) <-> In k (map_keys old) \/ In k (map_keys new)) /\
  exists ixs added,
    map_keys (merge_meta old new) = ixs ++ filter (fun k => negb (is_index k)) (map_keys old) ++ added /\
    Forall (fun k => is_index k = true) ixs /\ Forall (fun k => is_index k = false) added /\
    Sorted (fun a b => (index_value a <= index_value b)%N) ixs.
Proof.
  intros old new k.
  assert (Hget : forall k, map_get (merge_meta old new) k =
            match map_get (rev new) k with Some v => Some v | None => map_get old k end).
  { intros k'. unfold merge_meta. rewrite map_get_own_keys. apply spread_lookup. }
  split; [apply Hget|split].
  - assert (Hrev : In k (map_keys new) <-> exists v, map_get (rev new) k = Some v).
    { rewrite <- in_keys_get. unfold map_keys. rewrite map_rev, <- in_rev. reflexivity. }
    rewrite Hrev, !in_keys_get, Hget.
    destruct (map_get (rev new) k) as [v|]; split.
    + intros _. right. eauto.
    + intros _. eauto.
    + intros H. left. exact H.
    + intros [H|[v H]]; [exact H|discriminate].
  - set (C := fold_left (fun acc kv => map_set acc (fst kv) (snd kv)) new old).
    destruct (spread_keys old new) as [added0 Ha]. fold C in Ha.
    exists (map fst (fold_right insert_index [] (filter (fun kv => is_index (fst kv)) C))),
           (filter (fun k => negb (is_index k)) added0).
    split; [|split; [|split]].
    + unfold merge_meta, own_keys_order. fold C. unfold map_keys. rewrite map_app.
      pose proof (map_filter_fst (fun k => negb (is_index k)) C) as E. cbv beta in E. rewrite E.
      unfold map_keys in Ha. rewrite Ha, filter_app. reflexivity.
    + apply Forall_forall. intros x Hx. apply in_map_iff in Hx as (kv & <- & Hkv).
      apply in_sort_index, filter_In in Hkv. apply Hkv.
    + apply Forall_forall. intros x Hx. apply filter_In in Hx as [_ Hx].
      apply negb_true_iff in Hx. exact Hx.
    + apply (Sorted_map_fst (fun a b => (index_value a <= index_value b)%N)), sort_index_sorted.
Qed.
Lemma merge_meta_lookup_witness :
  map_get (merge_meta [("url", "a"); ("title", "t")] [("url", "b")]) "url" = Some "b" /\
  map_get (merge_meta [("url", "a"); ("title", "t")] [("url", "b")]) "title" = Some "t" /\
  map_keys (merge_meta [("a", "x")] [("0", "y")]) = ["0"; "a"].
Proof.
  split; [|split].
  - rewrite (proj1 (merge_meta_lookup [("url", "a"); ("title", "t")] [("url", "b")] "url")). reflexivity.
  - rewrite (proj1 (merge_meta_lookup [("url", "a"); ("title", "t")] [("url", "b")] "title")). reflexivity.
  - reflexivity.
Defined.
(** X8.  A pong naming a registered executor, received on any transport
    handle (not necessarily that executor's), sets that executor's
    lastActiveAt to the current time and changes nothing else; a pong
    naming an unregistered executor is ignored. *)
Theorem pong_refreshes_only_lastActive :
  (forall w m id now r c, reachable m -> lookup_exec m id = Some (r, c) ->
   let m' := handleMessage w (MPong id) now m in
   lookup_exec m' id = Some (r, with_lastActive c now) /\
   (forall id', id' <> id -> lookup_exec m' id' = lookup_exec m id') /\
   executors m' = executors m /\ getDefault m' = getDefault m /\ timers m' = timers m /\
   calls m' = calls m /\ traffic m' = traffic m /\ closes m' = closes m) /\
  (forall w m id now, lookup_exec m id = None -> handleMessage w (MPong id) now m = m).
Proof.
  split.
  - intros w m id now r c R L. pose proof (reachable_wf m R) as W. cbv zeta.
    simpl. rewrite L.
    split; [exact (lookup_update_same m id r c (fun c0 => with_lastActive c0 now) L)|].
    split; [intros id' Hne; apply (lookup_update_other m id id' r c); assumption|].
    repeat split.
  - intros w m id now L. simpl. rewrite L. reflexivity.
Qed.
Lemma pong_refreshes_only_lastActive_witness :
  lookup_exec (handleMessage 7 (MPong "e1") 40%Z st_e1) "e1" = Some (0, mkConn 1 e1_register 0 40 []) /\
  handleMessage 7 (MPong "e9") 40%Z st_e1 = st_e1.
Proof.
  split.
  - rewrite (proj1 ((proj1 pong_refreshes_only_lastActive) 7 st_e1 "e1" 40%Z 0 conn_e1
                      (reachable_run _ _ reach_init) eq_refl)).
    reflexivity.
  - exact ((proj2 pong_refreshes_only_lastActive) 7 st_e1 "e9" 40%Z eq_refl).
Defined.
(** X9.  A successful request followed by its reply.  Suppose the target
    resolves to a connection and the new request id is pending nowhere.
    Then [execute] sends one execute command with that id to the
    connection's transport handle.  A result message carrying that id
    resolves the request's promise with the result as received, and
    cancels its timeout.  Afterwards the timers are those before the call,
    and the connections are those before the call except that the target's
    lastActiveAt is the time read after the send ([sent_at], which need
    not equal the time in the id); the request's timeout can no longer
    fire. *)
Theorem execute_reply_roundtrip :
  forall m a ps t now sfx sat res r c,
  reachable m -> getExecutor t m = Some (r, c) ->
  find_pending (heap m) (executors m) (request_id now sfx) = None ->
  res_id res = request_id now sfx ->
  let m1 := snd (execute a ps t now sfx None sat m) in
  let m2 := handleResult res m1 in
  fst (execute a ps t now sfx None sat m) = Awaiting (next_handle m) /\
  traffic m1 = traffic m ++ [(ws c, OExecute (request_id now sfx) a ps)] /\
  calls m2 = calls m ++ [(next_handle m, ArmReply, Resolve res)] /\
  timers m2 = timers m /\
  heap m2 = list_update (heap m) r (fun c0 => with_lastActive c0 sat) /\
  fire_timer (next_handle m) m2 = m2.
Proof.
  intros m a ps t now sfx sat res r c R G F Hid. pose proof (reachable_wf m R) as W.
  destruct (getExecutor_Some _ _ _ _ G) as [s L]. destruct (lookup_exec_Some _ _ _ _ L) as [Hg Hc].
  assert (Hin : In (s, r) (executors m)) by (apply map_get_In; exact Hg).
  set (id := request_id now sfx) in *.
  set (p := next_handle m).
  assert (Hk : map_get (pendingRequests c) id = None) by exact (find_pending_None _ _ _ F s r c Hin Hc).
  set (f := fun c0 => with_lastActive (with_pending c0 (map_set (pendingRequests c0) id (mkPending p p))) sat).
  set (m1 := update_conn (send (arm_request m r id) (ws c) (OExecute id a ps)) r
                         (fun c0 => with_lastActive c0 sat)).
  assert (E1 : execute a ps t now sfx None sat m = (Awaiting p, m1))
    by (rewrite execute_unfold, G; reflexivity).
  assert (He1 : executors m1 = executors m) by reflexivity.
  assert (Hh1 : heap m1 = list_update (heap m) r f) by (unfold m1, f, update_conn, arm_request; cbn; rewrite list_update_compose; reflexivity).
  assert (Ht1 : timers m1 = timers m ++ [(p, mkTask r id p)]) by reflexivity.
  assert (Hc1 : calls m1 = calls m) by reflexivity.
  assert (F1 : find_pending (heap m1) (executors m1) id = Some (r, mkPending p p)).
  { rewrite He1, Hh1. apply (find_pending_unique _ _ _ s r (f c)); [| exact Hin | | ].
    - intros id' r' c' Hin' Hc' Hne. rewrite nth_error_list_update in Hc'.
      destruct (Nat.eqb_spec r' r) as [->|Hr]; [reflexivity|].
      exfalso. apply Hne. exact (find_pending_None _ _ _ F id' r' c' Hin' Hc').
    - rewrite nth_error_list_update, Nat.eqb_refl, Hc. reflexivity.
    - unfold f. simpl. apply map_get_set_same. }
  assert (Htm : filter (fun t0 => negb (Nat.eqb p (fst t0))) (timers m ++ [(p, mkTask r id p)]) = timers m).
  { rewrite filter_app. simpl. rewrite Nat.eqb_refl. simpl. rewrite app_nil_r.
    apply filter_all_true. intros [h tk] Ht. simpl.
    destruct (wf_timer m W h tk Ht) as (_ & _ & Hlt). apply negb_true_iff, Nat.eqb_neq.
    unfold p. lia. }
  cbv zeta. rewrite E1. cbn [fst snd].
  split; [reflexivity|]. split; [reflexivity|].
  unfold handleResult. rewrite Hid, F1. cbn [pending_promise timeout].
  split; [rewrite <- Hc1; reflexivity|].
  assert (Ht2 : timers (invoke (update_conn (clearTimeout m1 p) r
                    (fun c0 => with_pending c0 (map_delete (pendingRequests c0) id))) p ArmReply (Resolve res))
                = timers m).
  { transitivity (filter (fun t0 => negb (Nat.eqb p (fst t0))) (timers m1)); [reflexivity|].
    rewrite Ht1. exact Htm. }
  split; [exact Ht2|]. split.
  - transitivity (list_update (heap m1) r (fun c0 => with_pending c0 (map_delete (pendingRequests c0) id)));
      [reflexivity|].
    rewrite Hh1, list_update_compose.
    apply (list_update_ext_at _ _ _ _ c Hc). unfold f. destruct c as [cw ci cc cl cp]. simpl in *.
    unfold with_lastActive, with_pending. simpl. rewrite map_delete_set_absent by exact Hk.
    reflexivity.
  - unfold fire_timer. rewrite Ht2, find_timer_None; [reflexivity|].
    intros tk Htk. destruct (wf_timer m W _ _ Htk) as (_ & _ & Hlt). unfold p in Hlt. lia.
Qed.
Lemma execute_reply_roundtrip_witness :
  calls (handleResult (mkResult "req_5_abc" true (Some "ok") None)
           (snd (execute "click" [] None 5 "abc" None 9 st_e1))) =
    [(0, ArmReply, Resolve (mkResult "req_5_abc" true (Some "ok") None))] /\
  timers (handleResult (mkResult "req_5_abc" true (Some "ok") None)
            (snd (execute "click" [] None 5 "abc" None 9 st_e1))) = [] /\
  heap (handleResult (mkResult "req_5_abc" true (Some "ok") None)
          (snd (execute "click" [] None 5 "abc" None 9 st_e1))) = [mkConn 1 e1_register 0 9 []].
Proof.
  destruct (execute_reply_roundtrip st_e1 "click" [] None 5 "abc" 9 (mkResult "req_5_abc" true (Some "ok") None)
              0 conn_e1 (reachable_run _ _ reach_init) eq_refl ltac:(reflexivity) ltac:(reflexivity))
    as (_ & _ & Hc & Ht & Hh & _).
  split; [rewrite Hc; reflexivity|]. split; [rewrite Ht; reflexivity|]. rewrite Hh. reflexivity.
Defined.
(** X10.  What each event may change.  Only a registration message
    closes a transport.  Only an [execute] whose send succeeds, and the
    heartbeat sweep, send anything; a failed send sends nothing.  Only a
    registration message, a transport close, [unregister] and
    [setDefault] change the registry or the default executor: replies,
    state and pong messages, timeouts, tool calls and sweeps never do. *)
Theorem step_frame :
  forall e m,
  (closes (step e m) <> closes m -> exists w i now, e = EMessage w (MRegister i) now) /\
  (traffic (step e m) <> traffic m ->
     (exists a ps t now sfx sat, e = EExecute a ps t now sfx None sat) \/ (exists now, e = ESweep now)) /\
  (executors (step e m) <> executors m \/ defaultExecutorId (step e m) <> defaultExecutorId m ->
     (exists w i now, e = EMessage w (MRegister i) now) \/ (exists w, e = EClose w) \/
     (exists id, e = EUnregister id) \/ (exists id, e = ESetDefault id)).
Proof.
  intros e m. destruct e as [w msg now|w|id|id|a ps t now sfx err sat|h|now]; cbn [step].
  - destruct msg as [i|res|id mt|id].
    + split; [intros _; eauto|]. split; [|intros _; left; eauto].
      intros H. exfalso. apply H. apply register_traffic.
    + destruct (handleResult_frame res m) as (E1 & E2 & E3 & E4). cbn [handleMessage].
      rewrite E1, E2, E3, E4. split; [|split]; intros H; exfalso; [..|destruct H]; apply H; reflexivity.
    + destruct (updateState_frame id mt now m) as (E1 & E2 & E3 & E4). cbn [handleMessage].
      rewrite E1, E2, E3, E4. split; [|split]; intros H; exfalso; [..|destruct H]; apply H; reflexivity.
    + destruct (pong_frame w id now m) as (E1 & E2 & E3 & E4).
      rewrite E1, E2, E3, E4. split; [|split]; intros H; exfalso; [..|destruct H]; apply H; reflexivity.
  - destruct (unregisterByWs_frame w m) as [E3 E4]. rewrite E3, E4.
    split; [|split]; [intros H; exfalso; apply H; reflexivity..|intros _; right; left; eauto].
  - destruct (unregister_frame id m) as [E3 E4]. rewrite E3, E4.
    split; [|split]; [intros H; exfalso; apply H; reflexivity..|intros _; right; right; left; eauto].
  - destruct (setDefault_frame id m) as (_ & E3 & E4). rewrite E3, E4.
    split; [|split]; [intros H; exfalso; apply H; reflexivity..|intros _; right; right; right; eauto].
  - destruct (execute_frame a ps t now sfx err sat m) as (E1 & E2 & E4 & E3). rewrite E1, E2, E4.
    split; [intros H; exfalso; apply H; reflexivity|]. split.
    + destruct err as [e|]; [|intros _; left; do 6 eexists; reflexivity].
      intros H. exfalso. apply H, E3. discriminate.
    + intros [H|H]; exfalso; apply H; reflexivity.
  - destruct (fire_timer_frame h m) as (E1 & E2 & E3 & E4).
    rewrite E1, E2, E3, E4. split; [|split]; intros H; exfalso; [..|destruct H]; apply H; reflexivity.
  - rewrite checkConnections_spec. cbn.
    split; [intros H; exfalso; apply H; reflexivity|]. split; [intros _; right; eauto|].
    intros [H|H]; exfalso; apply H; reflexivity.
Qed.
Lemma step_frame_witness :
  (exists w i now, EMessage 9 (MRegister e1_register) 7%Z = EMessage w (MRegister i) now) /\
  ((exists a ps t now sfx sat, EExecute "click" [] None 5%Z "abc" None 5%Z = EExecute a ps t now sfx None sat) \/
   (exists now, EExecute "click" [] None 5%Z "abc" None 5%Z = ESweep now)).
Proof.
  split.
  - apply (proj1 (step_frame (EMessage 9 (MRegister e1_register) 7%Z) st_e1)). discriminate.
  - apply (proj1 (proj2 (step_frame (EExecute "click" [] None 5%Z "abc" None 5%Z) st_e1))). discriminate.
Defined.
(** X11.  In every reachable state, a request still held in the pending
    map of a registered executor has not been settled yet, and its timeout
    is armed: the timer with the request's handle is scheduled to fail
    that very request of that very connection.  So no pending request can
    wait forever. *)
Theorem pending_requests_armed :
  forall m id r c k e, reachable m ->
  lookup_exec m id = Some (r, c) -> map_get (pendingRequests c) k = Some e ->
  count_calls m (pending_promise e) = 0 /\ timeout e = pending_promise e /\
  find_timer (timers m) (pending_promise e) = Some (mkTask r k (pending_promise e)).
Proof.
  intros m id r c k e R L Hk. pose proof (reachable_wf m R) as W.
  destruct (lookup_exec_Some _ _ _ _ L) as [Hg Hc].
  destruct (wf_entry m W r k e) as [Ht T].
  { exists id, c. split; [apply map_get_In; exact Hg|]. split; [exact Hc|]. apply map_get_In. exact Hk. }
  destruct (wf_timer m W _ _ T) as (_ & Hcnt & _).
  split; [exact Hcnt|]. split; [exact Ht|]. apply find_timer_NoDup; [apply W|exact T].
Qed.
Lemma pending_requests_armed_witness :
  find_timer (timers st_e1_pending) 0 = Some (mkTask 0 "req_5_abc" 0).
Proof.
  exact (proj2 (proj2 (pending_requests_armed st_e1_pending "e1" 0 conn_e1_pending "req_5_abc" (mkPending 0 0)
                         (reachable_run _ _ reach_init) eq_refl eq_refl))).
Defined.
(** ** The heartbeat and server singletons *)
(** X12.  After the constructor and any sequence of [startHeartbeat] and
    [stopHeartbeat] calls, the only uncleared interval timer is the one
    held in [heartbeatInterval]: at most one sweep timer ever runs, a
    second start adds none, and after a stop none is left.  The
    constructor starts one. *)
Theorem heartbeat_single_interval :
  forall ops,
  hb_active (hb_run ops) = match heartbeatInterval (hb_run ops) with Some i => [i] | None => [] end /\
  hb_active heartbeat_init = [0].
Proof.
  intros ops. split; [|reflexivity]. unfold hb_run.
  assert (G : forall h, hb_active h = match heartbeatInterval h with Some i => [i] | None => [] end ->
            let h' := fold_left (fun h o => hb_step o h) ops h in
            hb_active h' = match heartbeatInterval h' with Some i => [i] | None => [] end).
  { induction ops as [|o t IH]; intros h Hh; [exact Hh|]. simpl. apply IH.
    destruct o; simpl; unfold startHeartbeat, stopHeartbeat;
      destruct (heartbeatInterval h) as [i|] eqn:E; simpl; rewrite ?E, ?Hh; simpl; rewrite ?Nat.eqb_refl; reflexivity. }
  apply G. reflexivity.
Qed.
Lemma heartbeat_single_interval_witness : hb_active (hb_run [HbStart; HbStart; HbStop; HbStart]) = [1].
Proof. rewrite (proj1 (heartbeat_single_interval [HbStart; HbStart; HbStop; HbStart])). reflexivity. Defined.
(** X13.  After any sequence of [startWebSocketServer] and
    [stopWebSocketServer] calls, the only server created and not closed
    is the one held in [wss]: at most one server listens at a time.
    Starting while a server runs returns that server and creates none,
    and after a stop none is left. *)
Theorem ws_server_singleton :
  forall ops,
  let s := ws_run ops in
  ws_listening s = match wss s with Some w => [w] | None => [] end /\
  (forall w, wss s = Some w -> startWebSocketServer s = (w, s)).
Proof.
  intros ops. cbv zeta. split.
  - unfold ws_run.
    assert (G : forall s, ws_listening s = match wss s with Some w => [w] | None => [] end ->
              let s' := fold_left (fun s o => ws_step o s) ops s in
              ws_listening s' = match wss s' with Some w => [w] | None => [] end).
    { induction ops as [|o t IH]; intros s Hs; [exact Hs|]. simpl. apply IH.
      destruct o; simpl; unfold startWebSocketServer, stopWebSocketServer;
        destruct (wss s) as [w|] eqn:E; simpl; rewrite ?E, ?Hs; simpl; rewrite ?Nat.eqb_refl; reflexivity. }
    apply G. reflexivity.
  - intros w Hw. unfold startWebSocketServer. rewrite Hw. reflexivity.
Qed.
Lemma ws_server_singleton_witness :
  startWebSocketServer (ws_run [WsStart]) = (0, ws_run [WsStart]) /\ ws_listening (ws_run [WsStart; WsStop]) = [].
Proof.
  split.
  - exact (proj2 (ws_server_singleton [WsStart]) 0 eq_refl).
  - rewrite (proj1 (ws_server_singleton [WsStart; WsStop])). reflexivity.
Defined.
(** X14.  A result message is delivered to the earliest-registered
    executor whose pending map holds its id: that entry is removed, its
    timeout cancelled and its promise resolved with the result as
    received.  Pending entries with the same id on later executors stay
    as they are. *)
Theorem handleResult_first_match :
  forall m res pre id r c post e,
  executors m = pre ++ (id, r) :: post ->
  (forall id' r' c', In (id', r') pre -> nth_error (heap m) r' = Some c' ->
                     map_get (pendingRequests c') (res_id res) = None) ->
  nth_error (heap m) r = Some c -> map_get (pendingRequests c) (res_id res) = Some e ->
  handleResult res m =
    invoke (update_conn (clearTimeout m (timeout e)) r (drop_entry (res_id res)))
           (pending_promise e) ArmReply (Resolve res).
Proof.
  intros m res pre id r c post e He Hpre Hc Hk. unfold handleResult.
  rewrite He, (find_pending_first _ _ _ _ _ _ _ _ Hpre Hc Hk). reflexivity.
Qed.
Lemma handleResult_first_match_witness :
  calls (handleResult (mkResult "req_5_abc" true None None) st_e1_pending) =
    [(0, ArmReply, Resolve (mkResult "req_5_abc" true None None))].
Proof.
  rewrite (handleResult_first_match st_e1_pending (mkResult "req_5_abc" true None None) [] "e1" 0
             conn_e1_pending [] (mkPending 0 0) eq_refl ltac:(intros ? ? ? [])
             eq_refl eq_refl).
  reflexivity.
Defined.

